(** * ksort / outlier.py: the column outlier filter

    A shallow embedding of [src/outlier.py] and the properties of its
    specification.  The program reads a table of integers from [out.txt],
    replaces every cell whose absolute z-score exceeds a threshold by the mean
    of its column, and writes the table back.

    - numpy's [float64] is IEEE 754 binary64; it is modelled by the Standard
      Library's executable specification [SpecFloat] at precision 53 and
      maximal exponent 1024, so that every operation rounds as the hardware
      does and every example below is evaluated bit for bit.
    - A sum in binary64 depends on the order of its additions: the
      reductions along axis 0 add in the order in which numpy adds, row by
      row for an array of several columns and pairwise for an array of one
      column.
    - Python objects live in a heap of locations, since the function rebinds
      its parameter to a fresh array and then assigns into that array.
    - Exceptions are results [Raise e]; the state (heap, standard output and
      the file) is threaded through a small state-and-error monad. *)

From Stdlib Require Import ZArith Lia Ascii String Floats.SpecFloat.
From stdpp Require Import base list strings pretty.

Local Open Scope Z_scope.

(** ** Exceptions *)

Inductive exn : Type :=
  | IndexError | ValueError | TypeError | OverflowError | FileNotFoundError.

Inductive result (A : Type) : Type :=
  | Ok (a : A)
  | Raise (e : exn).
Arguments Ok {A} a.
Arguments Raise {A} e.

(** ** Binary64 floating point *)

Module F64.

Definition prec : Z := 53.
Definition emax : Z := 1024.

Definition float : Type := spec_float.

(** Conversion of an integer, rounding to nearest, ties to even. *)
Definition of_Z (v : Z) : float := binary_normalize prec emax v 0 false.

Definition zero : float := S754_zero false.
Definition nan : float := S754_nan.

Definition add : float -> float -> float := SFadd prec emax.
Definition sub : float -> float -> float := SFsub prec emax.
Definition mul : float -> float -> float := SFmul prec emax.
Definition div : float -> float -> float := SFdiv prec emax.
Definition sqrt : float -> float := SFsqrt prec emax.
Definition abs : float -> float := SFabs.

(** [x > y], [x <= y] and [x == y]; all three are false on a NaN. *)
Definition gtb (x y : float) : bool :=
  match SFcompare x y with Some Gt => true | _ => false end.
Definition leb (x y : float) : bool := SFleb x y.
Definition eqb (x y : float) : bool := SFeqb x y.

Definition is_zero (x : float) : bool :=
  match x with S754_zero _ => true | _ => false end.

Definition min_int64 : Z := - 2 ^ 63.
Definition max_int64 : Z := 2 ^ 63 - 1.

(** The integral part of a finite float (rounding toward zero). *)
Definition trunc (x : float) : option Z :=
  match x with
  | S754_zero _ => Some 0
  | S754_finite s m e =>
      Some (cond_Zopp s
              (match e with
               | Z0 => Zpos m
               | Zpos _ => Zpos m * 2 ^ e
               | Zneg p => Zpos m / 2 ^ Zpos p
               end))
  | S754_infinity _ | S754_nan => None
  end.

(** The conversion done when a [float64] is stored into a cell of an
    [int64] array.  The float goes through Python's [int(x)], which drops the
    fractional part and refuses a NaN with [ValueError] and an infinity with
    [OverflowError]; the integer is then converted to a C [long], which
    refuses with [OverflowError] what lies outside [-2^63 .. 2^63 - 1]. *)
Definition to_int64 (x : float) : result Z :=
  match trunc x with
  | Some v =>
      if (min_int64 <=? v) && (v <=? max_int64)
      then Ok v
      else Raise OverflowError
  | None =>
      match x with
      | S754_nan => Raise ValueError
      | _ => Raise OverflowError
      end
  end.

(** The nearest integer to [m * 2^e], ties to even. *)
Definition round_half_even (m : positive) (e : Z) : Z :=
  match e with
  | Z0 => Zpos m
  | Zpos _ => Zpos m * 2 ^ e
  | Zneg p =>
      let d := 2 ^ Zpos p in
      let q := Zpos m / d in
      match (2 * (Zpos m mod d) ?= d) with
      | Lt => q
      | Gt => q + 1
      | Eq => if Z.even q then q else q + 1
      end
  end.

(** ["{:.0f}".format(x)] *)
Definition format_0f (x : float) : string :=
  let sign (s : bool) (body : string) := if s then "-" +:+ body else body in
  match x with
  | S754_nan => "nan"
  | S754_infinity s => sign s "inf"
  | S754_zero s => sign s "0"
  | S754_finite s m e => sign s (pretty (round_half_even m e))
  end.

End F64.

(** ** Tables and numpy arrays *)

(** A table is a Python list of rows, each a list of integers. *)
Abbreviation table := (list (list Z)).

Definition shape0 {A} (a : list (list A)) : nat := length a.
Definition shape1 {A} (a : list (list A)) : nat := length (hd [] a).

Definition int64 (v : Z) : Prop := F64.min_int64 <= v <= F64.max_int64.

(** The tables that [np.array] turns into a two-dimensional [int64] array
    with at least one row and one column. *)
Definition valid_table (t : table) : Prop :=
  (0 < shape0 t)%nat /\ (0 < shape1 t)%nat /\
  Forall (fun r => length r = shape1 t) t /\
  Forall (Forall int64) t /\
  Z.of_nat (shape0 t) <= F64.max_int64.

(** [np.array(datas)] on a list of lists.  The empty list gives the
    one-dimensional array of shape [(0,)]; rows of one length [k] give an
    array of shape [(n, k)]; rows of differing lengths are refused with
    [ValueError] (an inhomogeneous shape).  The cells of a [Matrix] are the
    elements of an [int64] array: the array that [np.array] builds from
    cells that all are [int64].  A cell beyond [int64] would give an array
    of another element type ([uint64], [float64] or Python objects), which
    has no counterpart here; the properties of the filter are stated for
    tables of [int64] cells. *)
Inductive ndarray : Type :=
  | Empty1
  | Matrix (cells : table).

Definition np_array (rows : table) : result ndarray :=
  match rows with
  | [] => Ok Empty1
  | r :: rest =>
      if forallb (fun r' => Nat.eqb (length r') (length r)) rest
      then Ok (Matrix rows)
      else Raise ValueError
  end.

(** *** The sum of elements that lie next to each other in memory

    numpy adds such a run of [n] floats pairwise.  Fewer than 8 elements are
    added one after the other.  Up to 128 elements are added into 8
    accumulators, element [i] into accumulator [i mod 8], over the blocks of
    8 that are complete; the accumulators are then added two by two and the
    elements left over are added one after the other.  A longer run is cut
    in two, the first part of half the length rounded down to a multiple of
    8, and the sums of the parts are added. *)

(** The accumulators [r] after [blocks] more blocks of 8 elements of [a],
    and the elements left over. *)
Fixpoint accumulate8 (blocks : nat) (r a : list F64.float)
    : list F64.float * list F64.float :=
  match blocks with
  | O => (r, a)
  | S blocks' => accumulate8 blocks' (zip_with F64.add r (take 8 a)) (drop 8 a)
  end.

(** The sum of 8 to 128 elements. *)
Definition sum_block (a : list F64.float) : F64.float :=
  let '(r, rest) := accumulate8 (length a / 8 - 1)%nat (take 8 a) (drop 8 a) in
  match r with
  | [r0; r1; r2; r3; r4; r5; r6; r7] =>
      foldl F64.add
        (F64.add (F64.add (F64.add r0 r1) (F64.add r2 r3))
                 (F64.add (F64.add r4 r5) (F64.add r6 r7)))
        rest
  | _ => foldl F64.add F64.zero a
  end.

(** The recursion halves the run: a [fuel] of the length of the run is more
    than it uses. *)
Fixpoint pairwise_sum (fuel : nat) (a : list F64.float) : F64.float :=
  let n := length a in
  if (n <? 8)%nat then foldl F64.add F64.zero a
  else if (n <=? 128)%nat then sum_block a
  else
    match fuel with
    | O => sum_block a
    | S fuel' =>
        let n2 := (n / 2 - (n / 2) mod 8)%nat in
        F64.add (pairwise_sum fuel' (take n2 a))
                (pairwise_sum fuel' (drop n2 a))
    end.

(** The size of the buffer through which numpy converts the elements of an
    array that is not of the type of the sum. *)
Definition bufsize : nat := Z.to_nat 8192.

Fixpoint chunks {A} (fuel : nat) (size : nat) (a : list A) : list (list A) :=
  match fuel, a with
  | _, [] => []
  | O, _ => [a]
  | S fuel', _ => take size a :: chunks fuel' size (drop size a)
  end.

(** [add.reduce] over a run of elements: the sum starts at 0.0 and the
    pairwise sum of the run is added to it.  When the elements have to be
    converted ([buffered]: an [int64] array summed in [float64]) they come
    through the buffer, and the run is added one buffer after the other. *)
Definition add_reduce (buffered : bool) (a : list F64.float) : F64.float :=
  let parts := if buffered then chunks (length a) bufsize a else [a] in
  foldl (fun acc part => F64.add acc (pairwise_sum (length part) part))
        F64.zero parts.

(** [add.reduce] along axis 0 of an array of [k] columns.  With several
    columns the output row starts at 0.0 and every row of the array is added
    to it in turn.  An array of one column is one run of elements in memory,
    and is added as such. *)
Definition sum_axis0 (buffered : bool) (k : nat) (x : list (list F64.float))
    : list F64.float :=
  if Nat.eqb k 1 then [add_reduce buffered (concat x)]
  else foldl (zip_with F64.add) (replicate k F64.zero) x.

Definition to_float64 (cells : table) : list (list F64.float) :=
  (fun r : list Z => F64.of_Z <$> r) <$> cells.

(** [datas.mean(axis = 0)]: the sum in [float64], divided by the row count. *)
Definition mean_axis0 (cells : table) : list F64.float :=
  (fun s => F64.div s (F64.of_Z (Z.of_nat (shape0 cells))))
    <$> sum_axis0 true (shape1 cells) (to_float64 cells).

(** [datas - v]: the row [v] is broadcast over the rows of the array. *)
Definition sub_row (cells : table) (v : list F64.float) : list (list F64.float) :=
  (fun r => zip_with F64.sub r v) <$> to_float64 cells.

(** [datas.std(axis = 0)]: the deviations from the mean are squared, summed,
    divided by the row count (no degrees of freedom are removed), and the
    square root is taken. *)
Definition std_axis0 (cells : table) : list F64.float :=
  let arrmean := mean_axis0 cells in
  let x := (fun r : list F64.float => (fun d => F64.mul d d) <$> r)
             <$> sub_row cells arrmean in
  (fun s => F64.sqrt (F64.div s (F64.of_Z (Z.of_nat (shape0 cells)))))
    <$> sum_axis0 false (shape1 cells) x.

(** [np.abs((datas - datas.mean(axis = 0)) / datas.std(axis = 0))] *)
Definition zscores (cells : table) : list (list F64.float) :=
  (fun r => F64.abs <$> zip_with F64.div r (std_axis0 cells))
    <$> sub_row cells (mean_axis0 cells).

(** ** The state of the program *)

Inductive pyobj : Type :=
  | PyList (rows : table)
  | NdArray (a : ndarray).

Abbreviation loc := nat.

Record world : Type := World {
  heap : list pyobj;            (* the objects allocated so far *)
  stdout : list string;         (* the lines printed *)
  out_txt : option (list string) (* the lines of out.txt, if the file exists *)
}.

Definition M (A : Type) : Type := world -> result A * world.

Definition ret {A} (a : A) : M A := fun w => (Ok a, w).
Definition raise {A} (e : exn) : M A := fun w => (Raise e, w).
Definition bind {A B} (m : M A) (f : A -> M B) : M B :=
  fun w => match m w with
           | (Ok a, w') => f a w'
           | (Raise e, w') => (Raise e, w')
           end.

Notation "x <- m ; f" := (bind m (fun x => f))
  (at level 100, m at next level, f at level 200, right associativity,
   format "'[v' x  <-  m ; '/' f ']'").
Notation "m ;; f" := (bind m (fun _ => f))
  (at level 100, f at level 200, right associativity,
   format "'[v' m  ;; '/' f ']'").

Definition lift {A} (r : result A) : M A := fun w => (r, w).

Definition alloc (o : pyobj) : M loc :=
  fun w => (Ok (length (heap w)),
            World (heap w ++ [o]) (stdout w) (out_txt w)).

Definition deref (p : loc) : M pyobj :=
  fun w => match heap w !! p with
           | Some o => (Ok o, w)
           | None => (Raise TypeError, w)
           end.

Definition assign (p : loc) (o : pyobj) : M unit :=
  fun w => (Ok tt, World (<[p := o]> (heap w)) (stdout w) (out_txt w)).

Definition print (s : string) : M unit :=
  fun w => (Ok tt, World (heap w) (stdout w ++ [s]) (out_txt w)).

Fixpoint for_each {A} (l : list A) (body : A -> M unit) : M unit :=
  match l with
  | [] => ret tt
  | x :: l' => body x ;; for_each l' body
  end.

Definition for_range (n : nat) (body : nat -> M unit) : M unit :=
  for_each (seq 0 n) body.

(** [a[i]] on a list or on one axis of an array. *)
Definition getitem {A} (l : list A) (i : nat) : M A :=
  match l !! i with
  | Some x => ret x
  | None => raise IndexError
  end.

(** [datas[i, j] = v] on the array at [p]: the array is updated in place. *)
Definition setitem2 (p : loc) (i j : nat) (v : Z) : M unit :=
  o <- deref p;
  match o with
  | NdArray (Matrix cells) =>
      row <- getitem cells i;
      if (j <? length row)%nat
      then assign p (NdArray (Matrix (<[i := <[j := v]> row]> cells)))
      else raise IndexError
  | _ => raise TypeError
  end.

(** ** [outlier_filter] *)

Definition default_threshold : F64.float := F64.of_Z 1.

(** The parameter [datas] is the location of the caller's list.  The first
    statement rebinds the local name to a fresh array; [z] and [m] are
    computed from that array before the loops assign into it.  The
    assignment [datas[i, j] = m[j]] converts the mean to [int64] and fails
    when the mean has no [int64] image. *)
Definition outlier_filter (datas : loc) (threshold : F64.float) : M loc :=
  o <- deref datas;
  arr <- lift (match o with
               | PyList rows => np_array rows
               | NdArray a => Ok a
               end);
  datas <- alloc (NdArray arr);
  match arr with
  | Empty1 =>
      (* mean and std of the empty array are the scalar nan and z is empty;
         [for i in m] then fails, a numpy scalar being not iterable *)
      raise TypeError
  | Matrix cells =>
      let z := zscores cells in
      let m := mean_axis0 cells in
      for_each m (fun i => print (F64.format_0f i)) ;;
      for_range (shape0 z) (fun i =>
        for_range (shape1 z) (fun j =>
          zi <- getitem z i;
          zij <- getitem zi j;
          if F64.gtb zij threshold
          then mj <- getitem m j;
               v <- lift (F64.to_int64 mj);
               setitem2 datas i j v
          else ret tt)) ;;
      ret datas
  end.

(** ** The script: load, filter, save *)

(** The lines of the file are strings of ASCII characters.  The separators
    of [str.split()] among the ASCII characters: *)
Definition is_space (c : ascii) : bool :=
  let n := nat_of_ascii c in
  ((9 <=? n) && (n <=? 13) || (28 <=? n) && (n <=? 32))%nat.

(** [line.split()]: the maximal runs of characters that are not separators. *)
Fixpoint split_go (cur : option string) (s : string) : list string :=
  match s with
  | EmptyString => option_list (String.rev <$> cur)
  | String c s' =>
      if is_space c
      then option_list (String.rev <$> cur) ++ split_go None s'
      else split_go (Some (String c (default EmptyString cur))) s'
  end.
Definition split (s : string) : list string := split_go None s.

Definition digit (c : ascii) : option Z :=
  let n := nat_of_ascii c in
  if ((48 <=? n) && (n <=? 57))%nat then Some (Z.of_nat n - 48) else None.

(** Decimal digits, where single underscores may separate two digits. *)
Fixpoint digits (acc : Z) (after_digit : bool) (s : string) : option Z :=
  match s with
  | EmptyString => if after_digit then Some acc else None
  | String c s' =>
      match digit c with
      | Some d => digits (10 * acc + d) true s'
      | None =>
          if Ascii.eqb c "_" && after_digit then digits acc false s' else None
      end
  end.

(** [int(e)] on a token of ASCII characters: an optional sign and decimal
    digits. *)
Definition int (e : string) : result Z :=
  let number (body : string) (k : Z -> Z) :=
    match digits 0 false body with
    | Some v => Ok (k v)
    | None => Raise ValueError
    end in
  match e with
  | String "+" body => number body id
  | String "-" body => number body Z.opp
  | _ => number e id
  end.

Fixpoint map_result {A B} (f : A -> result B) (l : list A) : result (list B) :=
  match l with
  | [] => Ok []
  | x :: l' =>
      match f x with
      | Ok y =>
          match map_result f l' with
          | Ok ys => Ok (y :: ys)
          | Raise e => Raise e
          end
      | Raise e => Raise e
      end
  end.

(** [[int(e) for e in line.split()]] for every line. *)
Definition parse_lines (lines : list string) : result table :=
  map_result (fun line => map_result int (split line)) lines.

(** [open('out.txt', 'r+')] followed by [readlines()]; a line is kept
    without its terminator. *)
Definition readlines : M (list string) :=
  fun w => match out_txt w with
           | Some lines => (Ok lines, w)
           | None => (Raise FileNotFoundError, w)
           end.

(** The load phase of the script: everything before the call of
    [outlier_filter].  [lines[0]] fails on a file without lines. *)
Definition load : M loc :=
  lines <- readlines;
  l0 <- getitem lines 0;
  let num_case := length (split l0) in
  datas <- lift (parse_lines lines);
  alloc (PyList datas).

(** [np.savetxt('out.txt', datas, fmt='%d')] *)
Definition savetxt (p : loc) : M unit :=
  o <- deref p;
  arr <- lift (match o with
               | PyList rows => np_array rows
               | NdArray a => Ok a
               end);
  let lines :=
    match arr with
    | Empty1 => []
    | Matrix cells =>
        (fun r : list Z => String.concat " " (pretty <$> r)) <$> cells
    end in
  fun w => (Ok tt, World (heap w) (stdout w) (Some lines)).

Definition main : M unit :=
  datas <- load;
  datas <- outlier_filter datas default_threshold;
  savetxt datas.

(** * The vocabulary of the properties *)

(** ** Tables, cells and columns *)

Definition rectangular {A} (k : nat) (a : list (list A)) : Prop :=
  Forall (fun r => length r = k) a.

Definition ragged (t : table) : Prop :=
  exists r1 r2, r1 ∈ t /\ r2 ∈ t /\ length r1 <> length r2.

(** The cell in row [i] and column [j]. *)
Definition cell {A} (a : list (list A)) (i j : nat) : option A :=
  a !! i ≫= (.!! j).

(** Column [j] of a table. *)
Definition column (j : nat) (t : table) : list Z :=
  (fun r : list Z => default 0 (r !! j)) <$> t.

(** The sum of one column of an array of [k] columns, as the reduction
    along axis 0 computes it. *)
Definition column_sum (buffered : bool) (k : nat) (fs : list F64.float)
    : F64.float :=
  if Nat.eqb k 1 then add_reduce buffered fs else foldl F64.add F64.zero fs.

(** The mean and the standard deviation of a column of a table of [k]
    columns. *)
Definition column_mean (k : nat) (vs : list Z) : F64.float :=
  F64.div (column_sum true k (F64.of_Z <$> vs))
          (F64.of_Z (Z.of_nat (length vs))).

Definition column_std (k : nat) (vs : list Z) : F64.float :=
  let mean := column_mean k vs in
  let square (v : Z) := let d := F64.sub (F64.of_Z v) mean in F64.mul d d in
  F64.sqrt (F64.div (column_sum false k (square <$> vs))
                    (F64.of_Z (Z.of_nat (length vs)))).

(** ** The loops, as pure folds *)

(** What the loops leave in a cell: the converted mean when
    [zv > threshold], the old value otherwise (and when the mean cannot be
    converted, in which case the loops stop at that cell). *)
Definition clamp_cell (threshold zv mv : F64.float) (v : Z) : Z :=
  if F64.gtb zv threshold
  then match F64.to_int64 mv with Ok x => x | Raise _ => v end
  else v.

(** One iteration of the inner loop on a row, and of the outer loop on the
    table. *)
Definition row_step (threshold : F64.float) (zr m : list F64.float)
    (row : list Z) (j : nat) : list Z :=
  match zr !! j, m !! j with
  | Some zv, Some mv =>
      if F64.gtb zv threshold
      then match F64.to_int64 mv with
           | Ok x => <[j := x]> row
           | Raise _ => row
           end
      else row
  | _, _ => row
  end.

Definition row_loop (threshold : F64.float) (m : list F64.float) (k : nat)
    (zr : list F64.float) (row : list Z) : list Z :=
  foldl (row_step threshold zr m) row (seq 0 k).

Definition table_step (threshold : F64.float) (z : list (list F64.float))
    (m : list F64.float) (k : nat) (cur : table) (i : nat) : table :=
  match z !! i, cur !! i with
  | Some zr, Some row => <[i := row_loop threshold m k zr row]> cur
  | _, _ => cur
  end.

(** The table that the two loops leave in the array when they run to their
    end. *)
Definition filtered (threshold : F64.float) (t : table) : table :=
  foldl (table_step threshold (zscores t) (mean_axis0 t) (shape1 (zscores t)))
        t (seq 0 (shape0 (zscores t))).

(** The loops run to their end when every mean that they assign can be
    converted. *)
Definition storable (x : F64.float) : bool :=
  match F64.to_int64 x with Ok _ => true | Raise _ => false end.

Definition cell_ok (threshold : F64.float) (zr m : list F64.float) (j : nat)
    : bool :=
  match zr !! j, m !! j with
  | Some zv, Some mv => negb (F64.gtb zv threshold) || storable mv
  | _, _ => true
  end.

Definition row_ok (threshold : F64.float) (m : list F64.float) (k : nat)
    (zr : list F64.float) : bool :=
  forallb (cell_ok threshold zr m) (seq 0 k).

Definition table_ok (threshold : F64.float) (z : list (list F64.float))
    (m : list F64.float) (k n : nat) : bool :=
  forallb (fun i => match z !! i with
                    | Some zr => row_ok threshold m k zr
                    | None => true
                    end) (seq 0 n).

Definition no_overflow (threshold : F64.float) (t : table) : bool :=
  table_ok threshold (zscores t) (mean_axis0 t)
           (shape1 (zscores t)) (shape0 (zscores t)).

(** The cells whose z-score is not above the threshold are in [cur'] what
    they are in [cur]. *)
Definition untouched (threshold : F64.float) (z : list (list F64.float))
    (cur cur' : table) : Prop :=
  forall i j,
    (forall zv, cell z i j = Some zv -> F64.gtb zv threshold = false) ->
    cell cur' i j = cell cur i j.

(** The world in which the array, allocated after the objects [h], holds
    [cur]. *)
Definition during (h : list pyobj) (out : list string)
    (file : option (list string)) (cur : table) : world :=
  World (h ++ [NdArray (Matrix cur)]) out file.

(** The body of the inner loop, for the array at location [a]. *)
Definition cell_body (threshold : F64.float) (z : list (list F64.float))
    (m : list F64.float) (a : loc) (i j : nat) : M unit :=
  zi <- getitem z i;
  zij <- getitem zi j;
  if F64.gtb zij threshold
  then mj <- getitem m j;
       v <- lift (F64.to_int64 mj);
       setitem2 a i j v
  else ret tt.

(** ** Runs *)

(** In world [w], the call [outlier_filter(datas, threshold)] with [datas] at
    location [p] returns an array that holds the table [out]. *)
Definition returns (w : world) (p : loc) (threshold : F64.float)
    (out : table) : Prop :=
  exists a w',
    outlier_filter p threshold w = (Ok a, w') /\
    heap w' !! a = Some (NdArray (Matrix out)).

(** The call raises the exception [e]. *)
Definition raises (w : world) (p : loc) (threshold : F64.float) (e : exn)
    : Prop :=
  exists w', outlier_filter p threshold w = (Raise e, w').

(** The assignment to the cell in row [i] and column [j] fails with [e]:
    the z-score of the cell is above the threshold and the mean of its column
    has no [int64] image. *)
Definition fails_at (threshold : F64.float) (z : list (list F64.float))
    (m : list F64.float) (i j : nat) (e : exn) : Prop :=
  exists zv mv,
    cell z i j = Some zv /\ F64.gtb zv threshold = true /\
    m !! j = Some mv /\ F64.to_int64 mv = Raise e.

(** The assignment fails at some cell of the table. *)
Definition overflows (threshold : F64.float) (t : table) : Prop :=
  exists i j e, fails_at threshold (zscores t) (mean_axis0 t) i j e.

(** The call returns when no assignment fails and raises [OverflowError]
    when one does. *)
Definition returns_unless_overflow (w : world) (p : loc)
    (threshold : F64.float) (t : table) : Prop :=
  (~ overflows threshold t -> exists out, returns w p threshold out) /\
  (overflows threshold t -> raises w p threshold OverflowError).

(** The world of a caller that holds the list [t] and nothing else. *)
Definition initial (t : table) : world := World [PyList t] [] None.

(** The world in which the script starts: nothing allocated, nothing
    printed, and the given lines in [out.txt]. *)
Definition on_disk (lines : list string) : world := World [] [] (Some lines).

(** The world after the load phase has built the list [t]. *)
Definition loaded (w : world) (t : table) : world :=
  World (heap w ++ [PyList t]) (stdout w) (out_txt w).

(** The example table of the specification, and the world after it has been
    filtered with the threshold 1. *)
Definition example_table : table := [[1; 100]; [2; 102]; [3; 98]; [100; 101]].

Definition example_after : world :=
  World [PyList example_table;
         NdArray (Matrix [[1; 100]; [2; 100]; [3; 100]; [26; 101]])]
        ["26"; "100"] None.


(** The threshold 0.5 and a table of one column, three times the same
    cell. *)
Definition half : F64.float := S754_finite false 4503599627370496 (-53).

Definition big_column : table :=
  [[6939913877534438]; [6939913877534438]; [6939913877534438]].

(** A column whose mean is computed as 2^63, one more than the greatest
    [int64], and whose last cell has a z-score above 1. *)
Definition edge_column : table :=
  [[9223372036854775807]; [9223372036854775807]; [9223372036854774784]].

(** The world in which the call on that column fails: the mean has been
    printed and the copy holds the cells of the input. *)
Definition edge_after : world :=
  World [PyList edge_column; NdArray (Matrix edge_column)]
        ["9223372036854775808"] None.

(** A table whose first column has all its cells at one standard deviation
    of the mean, beside the column of [edge_column]; and the world in which
    the call on it fails. *)
Definition edge_pair : table :=
  [[0; 9223372036854775807]; [2; 9223372036854775807];
   [0; 9223372036854775807]; [2; 9223372036854774784]].

Definition edge_pair_after : world :=
  World [PyList edge_pair; NdArray (Matrix edge_pair)]
        ["1"; "9223372036854775808"] None.

(** A column of nine cells, alone and beside a second column. *)
Definition nine_alone : table := [[2]; [4]; [1]; [5]; [3]; [4]; [2]; [4]; [5]].

Definition nine_beside : table :=
  [[2; 0]; [4; 0]; [1; 0]; [5; 0]; [3; 0]; [4; 0]; [2; 0]; [4; 0]; [5; 0]].

(** A file whose two lines have two tokens and one token, and a file of one
    blank line. *)
Definition ragged_lines : list string := ["1 2"; "3"].

Definition blank_lines : list string := [EmptyString].

Ltac valid_table_tac :=
  unfold valid_table, shape0, shape1, int64; simpl;
  repeat split; try lia; repeat constructor; vm_compute; congruence.

(** ** Binary64 numbers by digits and exponent *)

(** The exponent of the binade of a value of magnitude [2^e]. *)
Definition fexp64 (e : Z) : Z := Z.max (e - 53) (-1074).

(** The shift of [shr_fexp]: how far the mantissa [m] at exponent [e] lies
    below the exponent of its binade. *)
Definition shift64 (m e : Z) : Z := Z.max 0 (fexp64 (Zdigits2 m + e) - e).

(** The value [m * 2^e] is an integer. *)
Definition int_valued (m : positive) (e : Z) : Prop :=
  0 <= e \/ (2 ^ (- e) | Zpos m).

Definition int_class (x : F64.float) : Prop :=
  match x with
  | S754_finite _ m e => int_valued m e
  | _ => True
  end.

(** A normal number of exponent at least [E]: a cell converted to binary64,
    when it is not zero. *)
Definition finite_ge (E : Z) (x : F64.float) : Prop :=
  match x with
  | S754_finite _ m e => Zpos (digits2_pos m) = 53 /\ E <= e
  | _ => False
  end.

(** An infinity, or a normal number of exponent at least [E]. *)
Definition normal_ge (E : Z) (x : F64.float) : Prop :=
  match x with
  | S754_infinity _ => True
  | S754_finite _ m e => Zpos (digits2_pos m) = 53 /\ E <= e
  | _ => False
  end.

(** The same, and positive. *)
Definition pos_ge (E : Z) (x : F64.float) : Prop :=
  match x with
  | S754_infinity s => s = false
  | S754_finite s m e => s = false /\ Zpos (digits2_pos m) = 53 /\ E <= e
  | _ => False
  end.

(** A square of a deviation: the positive zero, or positive of exponent at
    least [E]. *)
Definition square_class (E : Z) (x : F64.float) : Prop :=
  x = S754_zero false \/ pos_ge E x.

(** The positive zero or a NaN. *)
Definition null (x : F64.float) : Prop := x = S754_zero false \/ x = S754_nan.

(** ** The file that is written *)

(** The lines that [np.savetxt] writes for a table, with [fmt='%d'] and the
    cells of a row separated by one space. *)
Definition saved_lines (t : table) : list string :=
  (fun r : list Z => String.concat " " (pretty <$> r)) <$> t.

(** No character of the string is a separator of [str.split()]. *)
Fixpoint no_space (s : string) : bool :=
  match s with
  | EmptyString => true
  | String c s' => negb (is_space c) && no_space s'
  end.

(** The z-score of a cell [v], from the statistics of its column [vs] in a
    table of [k] columns. *)
Definition column_zscore (k : nat) (vs : list Z) (v : Z) : F64.float :=
  F64.abs (F64.div (F64.sub (F64.of_Z v) (column_mean k vs))
                   (column_std k vs)).

(** ** The lines of a file

    A line as [readlines] gives it for a text file of ASCII characters: no
    character beyond 127 and no line terminator inside. *)
Definition plain_char (c : ascii) : bool :=
  let n := nat_of_ascii c in
  Nat.ltb n 128 && negb (Nat.eqb n 10) && negb (Nat.eqb n 13).

Fixpoint plain (line : string) : bool :=
  match line with
  | EmptyString => true
  | String c line' => plain_char c && plain line'
  end.

(** The file, when there is one, is a text of such lines, and the integers
    that it holds are [int64]. *)
Definition int64_file (w : world) : Prop :=
  forall lines, out_txt w = Some lines ->
    forallb plain lines = true /\
    forall t, parse_lines lines = Ok t -> Forall (Forall int64) t.
(** * Binary64 rounding *)

(** ** Binary64 rounding, digit by digit *)

Lemma fexp64_eq e : fexp 53 1024 e = fexp64 e.
Proof. reflexivity. Qed.

Lemma digits2_pos_size p : digits2_pos p = Pos.size p.
Proof. induction p as [p IH|p IH|]; simpl; congruence. Qed.

Lemma digits2_pos_log2 p : Zpos (digits2_pos p) = Z.log2 (Zpos p) + 1.
Proof.
  rewrite digits2_pos_size.
  destruct p as [p|p|]; simpl; try reflexivity; lia.
Qed.

(** [p] has [d] binary digits: [2^(d-1) <= p < 2^d]. *)
Lemma digits2_pos_bounds p :
  2 ^ (Zpos (digits2_pos p) - 1) <= Zpos p < 2 ^ Zpos (digits2_pos p).
Proof.
  rewrite digits2_pos_log2.
  replace (Z.log2 (Zpos p) + 1 - 1) with (Z.log2 (Zpos p)) by lia.
  apply Z.log2_spec. lia.
Qed.

Lemma digits2_pos_unique p d :
  2 ^ (d - 1) <= Zpos p < 2 ^ d -> Zpos (digits2_pos p) = d.
Proof.
  intros H. rewrite digits2_pos_log2.
  assert (0 <= d - 1).
  { destruct (Z.le_gt_cases 0 (d - 1)) as [|Hneg]; [done|].
    assert (d <= 0) by lia.
    destruct H as [_ H]. 
    assert (2 ^ d <= 2 ^ 0) by (apply Z.pow_le_mono_r; lia).
    change (2 ^ 0) with 1 in *. lia. }
  rewrite (Z.log2_unique (Zpos p) (d - 1)); [lia|lia|].
  replace (Z.succ (d - 1)) with d by lia. exact H.
Qed.

Lemma digits2_pos_ge p d : 2 ^ (d - 1) <= Zpos p -> d <= Zpos (digits2_pos p).
Proof.
  intros H. destruct (Z.le_gt_cases d (Zpos (digits2_pos p))) as [|Hlt]; [done|].
  pose proof (digits2_pos_bounds p) as [_ Hub].
  assert (2 ^ Zpos (digits2_pos p) <= 2 ^ (d - 1))
    by (apply Z.pow_le_mono_r; lia).
  lia.
Qed.

Lemma digits2_pos_le p d :
  0 <= d -> Zpos p < 2 ^ d -> Zpos (digits2_pos p) <= d.
Proof.
  intros Hd H. destruct (Z.le_gt_cases (Zpos (digits2_pos p)) d) as [|Hlt]; [done|].
  pose proof (digits2_pos_bounds p) as [Hlb _].
  assert (2 ^ d <= 2 ^ (Zpos (digits2_pos p) - 1))
    by (apply Z.pow_le_mono_r; lia).
  lia.
Qed.

(** Shifting to the left adds digits. *)
Lemma pos_iter_xO m d : Zpos (Pos.iter xO m d) = Zpos m * 2 ^ Zpos d.
Proof.
  revert m. induction d as [|d IH] using Pos.peano_ind; intros m.
  - simpl. lia.
  - rewrite Pos.iter_succ, Pos2Z.inj_xO, IH, Pos2Z.inj_succ, Z.pow_succ_r; lia.
Qed.

Lemma digits2_pos_shift m d :
  Zpos (digits2_pos (Pos.iter xO m d)) = Zpos (digits2_pos m) + Zpos d.
Proof.
  apply digits2_pos_unique. rewrite pos_iter_xO.
  pose proof (digits2_pos_bounds m) as [Hlb Hub].
  replace (Zpos (digits2_pos m) + Zpos d - 1)
    with ((Zpos (digits2_pos m) - 1) + Zpos d) by lia.
  rewrite !Z.pow_add_r by lia.
  assert (0 < 2 ^ Zpos d) by (apply Z.pow_pos_nonneg; lia).
  split; nia.
Qed.

(** ** The right shift [shr] *)

Lemma iter_pos_nat {A} (f : A -> A) p : forall x,
  SpecFloat.iter_pos f p x = Nat.iter (Pos.to_nat p) f x.
Proof.
  induction p as [p IH|p IH|]; intros x.
  - change (SpecFloat.iter_pos f p~1 x)
      with (SpecFloat.iter_pos f p (SpecFloat.iter_pos f p (f x))).
    rewrite !IH, Pos2Nat.inj_xI, Nat.iter_succ_r.
    replace (2 * Pos.to_nat p)%nat with (Pos.to_nat p + Pos.to_nat p)%nat
      by lia.
    by rewrite Nat.iter_add.
  - change (SpecFloat.iter_pos f p~0 x)
      with (SpecFloat.iter_pos f p (SpecFloat.iter_pos f p x)).
    rewrite !IH, Pos2Nat.inj_xO.
    replace (2 * Pos.to_nat p)%nat with (Pos.to_nat p + Pos.to_nat p)%nat
      by lia.
    by rewrite Nat.iter_add.
  - reflexivity.
Qed.

Lemma shr_1_m mrs : 0 <= shr_m mrs -> shr_m (shr_1 mrs) = shr_m mrs / 2.
Proof.
  destruct mrs as [m r s]. simpl. intros Hm.
  destruct m as [|[p|p|]|p]; simpl; try reflexivity; try lia.
  - rewrite <- Z.div2_div. reflexivity.
  - rewrite <- Z.div2_div. reflexivity.
Qed.

Lemma shr_iter_m k : forall mrs,
  0 <= shr_m mrs ->
  shr_m (Nat.iter k shr_1 mrs) = shr_m mrs / 2 ^ Z.of_nat k.
Proof.
  induction k as [|k IH]; intros mrs Hm.
  - simpl. now rewrite Z.div_1_r.
  - rewrite Nat.iter_succ, shr_1_m, IH by
      (try rewrite IH by done; try apply Z.div_pos; lia).
    rewrite Z.div_div by (try apply Z.pow_pos_nonneg; lia).
    f_equal. rewrite Nat2Z.inj_succ, Z.pow_succ_r; lia.
Qed.

Lemma shr_record_of_loc_m m l : shr_m (shr_record_of_loc m l) = m.
Proof. by destruct l as [|[]]. Qed.

Lemma shr_spec mrs e n :
  0 <= shr_m mrs ->
  shr_m (fst (shr mrs e n)) = shr_m mrs / 2 ^ Z.max 0 n /\
  snd (shr mrs e n) = e + Z.max 0 n.
Proof.
  intros Hm. destruct n as [|p|p]; simpl.
  - rewrite Z.div_1_r. lia.
  - rewrite iter_pos_nat, shr_iter_m, positive_nat_Z by done. done.
  - rewrite Z.div_1_r. lia.
Qed.

Lemma shr_1_exact a :
  0 <= a -> shr_1 (Build_shr_record (2 * a) false false)
            = Build_shr_record a false false.
Proof. intros Ha. by destruct a. Qed.

Lemma shr_iter_exact k : forall a,
  0 <= a ->
  Nat.iter k shr_1 (Build_shr_record (a * 2 ^ Z.of_nat k) false false)
  = Build_shr_record a false false.
Proof.
  induction k as [|k IH]; intros a Ha.
  - simpl. by rewrite Z.mul_1_r.
  - rewrite Nat.iter_succ_r, Nat2Z.inj_succ, Z.pow_succ_r by lia.
    replace (a * (2 * 2 ^ Z.of_nat k)) with (2 * (a * 2 ^ Z.of_nat k)) by lia.
    rewrite shr_1_exact; [by apply IH|].
    apply Z.mul_nonneg_nonneg; [done|]. apply Z.pow_nonneg. lia.
Qed.

Lemma shr_exact m e n :
  0 <= m -> (2 ^ Z.max 0 n | m) ->
  fst (shr (Build_shr_record m false false) e n)
  = Build_shr_record (m / 2 ^ Z.max 0 n) false false.
Proof.
  intros Hm [c Hc]. destruct n as [|p|p]; simpl.
  - by rewrite Z.div_1_r.
  - assert (Hpow : 0 < 2 ^ Zpos p) by (apply Z.pow_pos_nonneg; lia).
    rewrite Z.max_r in Hc by lia.
    assert (0 <= c) by nia.
    rewrite iter_pos_nat. subst m.
    rewrite Z.div_mul by lia.
    rewrite <- (positive_nat_Z p). by apply shr_iter_exact.
  - by rewrite Z.div_1_r.
Qed.

Lemma shr_fexp_spec m e l :
  0 <= m ->
  shr_m (fst (shr_fexp 53 1024 m e l)) = m / 2 ^ shift64 m e /\
  snd (shr_fexp 53 1024 m e l) = e + shift64 m e.
Proof.
  intros Hm. unfold shr_fexp. rewrite fexp64_eq.
  pose proof (shr_spec (shr_record_of_loc m l) e
                (fexp64 (Zdigits2 m + e) - e)) as Hshr.
  rewrite shr_record_of_loc_m in Hshr. by apply Hshr.
Qed.

Lemma shr_fexp_exact m e :
  0 <= m -> (2 ^ shift64 m e | m) ->
  fst (shr_fexp 53 1024 m e loc_Exact)
  = Build_shr_record (m / 2 ^ shift64 m e) false false.
Proof.
  intros Hm Hdiv. unfold shr_fexp. rewrite fexp64_eq. simpl shr_record_of_loc.
  by apply shr_exact.
Qed.

Lemma round_nearest_even_cases m l :
  round_nearest_even m l = m \/ round_nearest_even m l = m + 1.
Proof. destruct l as [|[]]; simpl; auto. destruct (Z.even m); auto. Qed.

(** Rounding a mantissa of at least 53 digits whose value is in the range
    of the normal numbers: the result has 53 digits and its exponent is that
    of the binade of the input or, after a carry, the next one. *)
Lemma binary_round_aux_normal s mx ex lx :
  let d := Zpos (digits2_pos mx) in
  let e1 := d + ex - 53 in
  let m0 := Zpos mx / 2 ^ (d - 53) in
  -1021 <= d + ex -> 53 <= d ->
  exists m' e',
    binary_round_aux 53 1024 s (Zpos mx) ex lx
    = (if e' <=? 971 then S754_finite s m' e' else S754_infinity s) /\
    Zpos (digits2_pos m') = 53 /\
    (e' = e1 \/ e' = e1 + 1) /\
    (lx = loc_Exact -> (2 ^ (d - 53) | Zpos mx) ->
     Zpos m' = m0 /\ e' = e1).
Proof.
  intros d e1 m0 Hmag Hd.
  assert (Hshift : shift64 (Zpos mx) ex = d - 53).
  { unfold shift64, fexp64. simpl Zdigits2. fold d. lia. }
  assert (Hm0 : 2 ^ 52 <= m0 < 2 ^ 53).
  { pose proof (digits2_pos_bounds mx) as [Hlb Hub]. fold d in Hlb, Hub.
    assert (Hpow : 0 < 2 ^ (d - 53)) by (apply Z.pow_pos_nonneg; lia).
    assert (Hsplit : 2 ^ d = 2 ^ (d - 53) * 2 ^ 53)
      by (rewrite <- Z.pow_add_r by lia; f_equal; lia).
    assert (Hsplit' : 2 ^ (d - 1) = 2 ^ (d - 53) * 2 ^ 52)
      by (rewrite <- Z.pow_add_r by lia; f_equal; lia).
    subst m0. split.
    - apply Z.div_le_lower_bound; lia.
    - apply Z.div_lt_upper_bound; lia. }
  unfold binary_round_aux.
  pose proof (shr_fexp_spec (Zpos mx) ex lx ltac:(lia)) as [Hm1 He1].
  rewrite Hshift in Hm1, He1. fold m0 in Hm1.
  destruct (shr_fexp 53 1024 (Zpos mx) ex lx) as [mrs' e1'] eqn:Hfirst.
  simpl in Hm1, He1.
  assert (He1' : e1' = e1) by (subst e1; lia). clear He1. subst e1'.
  set (m1 := round_nearest_even (shr_m mrs') (loc_of_shr_record mrs')).
  assert (Hm1' : m1 = m0 \/ m1 = m0 + 1).
  { subst m1. rewrite <- Hm1. apply round_nearest_even_cases. }
  assert (Hexact : lx = loc_Exact -> (2 ^ (d - 53) | Zpos mx) -> m1 = m0).
  { intros -> Hdiv.
    pose proof (shr_fexp_exact (Zpos mx) ex ltac:(lia)) as Hex.
    rewrite Hshift, Hfirst in Hex. simpl in Hex. specialize (Hex Hdiv).
    subst m1. rewrite Hex. reflexivity. }
  clearbody m1.
  pose proof (shr_fexp_spec m1 e1 loc_Exact ltac:(lia)) as [Hm2 He2].
  destruct (shr_fexp 53 1024 m1 e1 loc_Exact) as [mrs'' e''] eqn:Hsecond.
  simpl in Hm2, He2.
  destruct m1 as [|q|q]; [lia| |lia].
  destruct (Z.eq_dec (Zpos q) (2 ^ 53)) as [Hcarry|Hnocarry].
  - assert (Hdq : Zpos (digits2_pos q) = 54).
    { apply digits2_pos_unique. rewrite Hcarry. simpl. lia. }
    assert (Hs2 : shift64 (Zpos q) e1 = 1).
    { unfold shift64, fexp64. simpl Zdigits2. rewrite Hdq. subst e1. lia. }
    rewrite Hs2 in Hm2, He2. rewrite Hm2, Hcarry.
    change (2 ^ 53 / 2 ^ 1) with (Zpos 4503599627370496).
    exists 4503599627370496%positive, (e1 + 1). subst e''.
    change (1024 - 53) with 971.
    split; [reflexivity|]. split; [reflexivity|]. split; [by right|].
    intros Hl Hdiv. specialize (Hexact Hl Hdiv). lia.
  - assert (Hdq : Zpos (digits2_pos q) = 53).
    { apply digits2_pos_unique. simpl. lia. }
    assert (Hs2 : shift64 (Zpos q) e1 = 0).
    { unfold shift64, fexp64. simpl Zdigits2. rewrite Hdq. subst e1. lia. }
    rewrite Hs2 in Hm2, He2. rewrite Z.div_1_r in Hm2. rewrite Hm2.
    exists q, e1. replace e'' with e1 by lia.
    change (1024 - 53) with 971.
    split; [reflexivity|]. split; [done|]. split; [by left|].
    intros Hl Hdiv. specialize (Hexact Hl Hdiv). done.
Qed.

Lemma shl_align_spec mx ex e' :
  let '(mz, ez) := shl_align mx ex e' in
  ez = Z.min ex e' /\
  Zpos mz = Zpos mx * 2 ^ (ex - ez) /\
  Zpos (digits2_pos mz) + ez = Zpos (digits2_pos mx) + ex.
Proof.
  unfold shl_align. destruct (e' - ex) as [|p|p] eqn:Hdiff.
  - rewrite Z.sub_diag. simpl. lia.
  - rewrite Z.sub_diag. simpl. lia.
  - assert (Hsh : ex - e' = Zpos p) by lia.
    rewrite Hsh, pos_iter_xO, digits2_pos_shift. lia.
Qed.

Lemma int_valued_mag m e :
  int_valued m e -> 1 <= Zpos (digits2_pos m) + e.
Proof.
  intros [He | [c Hc]].
  - pose proof (digits2_pos_ge m 1). simpl in *. lia.
  - destruct (Z.le_gt_cases 0 e) as [He|He].
    + pose proof (digits2_pos_ge m 1). simpl in *. lia.
    + assert (Hpow : 0 < 2 ^ (- e)) by (apply Z.pow_pos_nonneg; lia).
      assert (1 <= c) by nia.
      pose proof (digits2_pos_ge m (1 - e)) as Hge.
      replace (1 - e - 1) with (- e) in Hge by lia.
      assert (2 ^ (- e) <= Zpos m) by nia. lia.
Qed.

(** [binary_round] on a value in the range of the normal numbers. *)
Lemma binary_round_normal s mx ex :
  let mag := Zpos (digits2_pos mx) + ex in
  -1021 <= mag ->
  exists m' e',
    binary_round 53 1024 s mx ex
    = (if e' <=? 971 then S754_finite s m' e' else S754_infinity s) /\
    Zpos (digits2_pos m') = 53 /\
    (e' = mag - 53 \/ e' = mag - 52) /\
    (int_valued mx ex -> int_valued m' e').
Proof.
  intros mag Hmag. unfold binary_round. rewrite fexp64_eq.
  pose proof (shl_align_spec mx ex (fexp64 (Zpos (digits2_pos mx) + ex)))
    as Hshl.
  destruct (shl_align mx ex _) as [mz ez].
  destruct Hshl as (Hez & Hmz & Hdz). fold mag in Hez, Hdz.
  assert (Hfexp : fexp64 mag = mag - 53) by (unfold fexp64; lia).
  rewrite Hfexp in Hez.
  destruct (binary_round_aux_normal s mz ez loc_Exact)
    as (m' & e' & Hres & Hdig & He' & Hexact); [lia|lia|].
  exists m', e'. split; [done|]. split; [done|].
  split; [lia|].
  intros Hint. destruct (Z.le_gt_cases 0 e') as [Hpos|Hneg]; [by left|].
  right.
  set (n1 := Zpos (digits2_pos mz) - 53) in *.
  assert (Hn1 : 0 <= n1) by lia.
  assert (Hen : ez + n1 < 0) by lia.
  (* the aligned mantissa is a multiple of [2^(-ez)] *)
  assert (Hmult : exists c, Zpos mz = c * 2 ^ (- ez)).
  { destruct Hint as [Hex | [c Hc]].
    - exists (Zpos mx * 2 ^ ex). rewrite Hmz.
      rewrite <- Z.mul_assoc, <- Z.pow_add_r by lia. do 2 f_equal; lia.
    - destruct (Z.le_gt_cases 0 ex) as [Hex|Hex].
      + exists (Zpos mx * 2 ^ ex). rewrite Hmz.
        rewrite <- Z.mul_assoc, <- Z.pow_add_r by lia. do 2 f_equal; lia.
      + exists c. rewrite Hmz, Hc.
        rewrite <- Z.mul_assoc, <- Z.pow_add_r by lia. do 2 f_equal; lia. }
  destruct Hmult as [c Hc].
  assert (Hsplit : 2 ^ (- ez) = 2 ^ (- (ez + n1)) * 2 ^ n1)
    by (rewrite <- Z.pow_add_r by lia; f_equal; lia).
  assert (Hpow : 0 < 2 ^ n1) by (apply Z.pow_pos_nonneg; lia).
  destruct Hexact as [Hm' He1]; [done| |].
  - exists (c * 2 ^ (- (ez + n1))). rewrite Hc, Hsplit. lia.
  - exists c. replace (- e') with (- (ez + n1)) by lia.
    by rewrite Hm', Hc, Hsplit, Z.mul_assoc, Z.div_mul by lia.
Qed.

(** ** Classes of floats by exponent *)

Lemma normal_ge_mono E E' x : E' <= E -> normal_ge E x -> normal_ge E' x.
Proof. intros HE. destruct x; simpl; try done. intros [? ?]; split; lia. Qed.

Lemma finite_ge_normal E x : finite_ge E x -> normal_ge E x.
Proof. by destruct x. Qed.

Lemma of_Z_nonzero v :
  v <> 0 -> - 2 ^ 64 < v < 2 ^ 64 ->
  exists m e,
    F64.of_Z v = S754_finite (v <? 0) m e /\
    Zpos (digits2_pos m) = 53 /\ -52 <= e <= 12 /\ int_valued m e.
Proof.
  intros Hv Hrange.
  assert (Hround : forall s p, Zpos p < 2 ^ 64 ->
            exists m e, binary_round 53 1024 s p 0 = S754_finite s m e /\
              Zpos (digits2_pos m) = 53 /\ -52 <= e <= 12 /\ int_valued m e).
  { intros s p Hp.
    pose proof (digits2_pos_ge p 1) as Hge.
    pose proof (digits2_pos_le p 64) as Hle.
    destruct (binary_round_normal s p 0) as (m & e & Hres & Hdig & He & Hint).
    { simpl in *. lia. }
    exists m, e. rewrite Hres.
    assert (Hleb : (e <=? 971) = true) by (apply Z.leb_le; simpl in *; lia).
    rewrite Hleb. split; [done|]. split; [done|].
    split; [simpl in *; lia|]. apply Hint. left. lia. }
  destruct v as [|p|p]; [done| |].
  - apply (Hround false p). lia.
  - apply (Hround true p). lia.
Qed.

Lemma of_Z_class v :
  - 2 ^ 64 < v < 2 ^ 64 ->
  F64.of_Z v = S754_zero false \/ finite_ge (-52) (F64.of_Z v).
Proof.
  intros Hrange. destruct (Z.eq_dec v 0) as [->|Hv]; [by left|right].
  destruct (of_Z_nonzero v Hv Hrange) as (m & e & -> & Hdig & He & _).
  simpl. split; [done|lia].
Qed.

(** ** Subtraction *)

Lemma sub_class E f mean :
  -1022 <= E ->
  f = S754_zero false \/ finite_ge E f ->
  F64.is_zero mean = true \/ normal_ge E mean ->
  F64.is_zero (F64.sub f mean) = true \/ normal_ge (E - 52) (F64.sub f mean).
Proof.
  intros HE Hf Hmean. unfold F64.sub.
  destruct Hf as [-> | Hf].
  - destruct mean as [sm|sm| |sm mm em]; simpl in *.
    + left. by destruct sm.
    + by right.
    + destruct Hmean as [?|[]]; done.
    + right. destruct Hmean as [?|[? ?]]; [done|]. split; [done|lia].
  - destruct f as [| | |sf mf ef]; try done. destruct Hf as [Hdf Hef].
    destruct mean as [sm|sm| |sm mm em]; simpl in Hmean.
    + right. simpl. split; [done|lia].
    + by right.
    + destruct Hmean as [?|[]]; done.
    + destruct Hmean as [?|[Hdm Hem]]; [done|].
      unfold SFsub. 
      set (ez := Z.min ef em).
      set (M := cond_Zopp sf (Zpos (fst (shl_align mf ef ez)))
                - cond_Zopp sm (Zpos (fst (shl_align mm em ez)))).
      assert (Hround : forall s p,
                normal_ge (E - 52) (binary_round 53 1024 s p ez)).
      { intros s p.
        pose proof (digits2_pos_ge p 1) as Hge.
        destruct (binary_round_normal s p ez) as (m & e & Hres & Hdig & He & _).
        { simpl in *. lia. }
        unfold F64.prec, F64.emax. rewrite Hres. destruct (e <=? 971); [|done].
        simpl. split; [done|]. simpl in *. lia. }
      unfold binary_normalize. destruct M as [|p|p].
      * by left.
      * right. apply Hround.
      * right. apply Hround.
Qed.

(** ** Squares *)

Lemma xorb_same s : xorb s s = false.
Proof. by destruct s. Qed.

Lemma mul_self_zero d :
  F64.is_zero d = true -> F64.mul d d = S754_zero false.
Proof. destruct d as [s| | |]; try done. intros _. simpl. by rewrite xorb_same. Qed.

Lemma mul_self_normal E d :
  -563 <= E -> normal_ge E d -> pos_ge (2 * E + 52) (F64.mul d d).
Proof.
  intros HE Hd. unfold F64.mul.
  destruct d as [s|s| |s m e]; simpl in Hd; try done.
  - simpl. by rewrite xorb_same.
  - destruct Hd as [Hdig He].
    unfold SFmul. rewrite xorb_same.
    pose proof (digits2_pos_bounds m) as [Hlb _]. rewrite Hdig in Hlb.
    change (2 ^ (53 - 1)) with (2 ^ 52) in Hlb.
    pose proof (digits2_pos_ge (m * m) 105) as Hge.
    rewrite Pos2Z.inj_mul in Hge.
    assert (Hsq : 2 ^ (105 - 1) <= Zpos m * Zpos m).
    { change (2 ^ (105 - 1)) with (2 ^ 52 * 2 ^ 52). nia. }
    specialize (Hge Hsq).
    destruct (binary_round_aux_normal false (m * m) (e + e) loc_Exact)
      as (m' & e' & Hres & Hdig' & He' & _); [lia|lia|].
    unfold F64.prec, F64.emax. rewrite Hres.
    destruct (e' <=? 971); [|done]. simpl. split; [done|]. split; [done|lia].
Qed.

(** ** Sums of squares *)

Lemma add_pos_ge E sx mx ex sy my ey :
  -1000 <= E ->
  pos_ge E (S754_finite sx mx ex) -> pos_ge E (S754_finite sy my ey) ->
  pos_ge E (F64.add (S754_finite sx mx ex) (S754_finite sy my ey)).
Proof.
  intros HE (-> & Hdx & Hex) (-> & Hdy & Hey).
  unfold F64.add, SFadd. set (ez := Z.min ex ey).
  pose proof (shl_align_spec mx ex ez) as Hx.
  pose proof (shl_align_spec my ey ez) as Hy.
  destruct (shl_align mx ex ez) as [mx' ex'].
  destruct (shl_align my ey ez) as [my' ey'].
  destruct Hx as (Hex' & Hmx' & Hdx'). destruct Hy as (Hey' & Hmy' & Hdy').
  simpl fst. simpl cond_Zopp.
  change (Zpos mx' + Zpos my') with (Zpos (mx' + my')).
  unfold binary_normalize.
  assert (Hdsum : Zpos (digits2_pos mx') <= Zpos (digits2_pos (mx' + my'))).
  { apply digits2_pos_ge. pose proof (digits2_pos_bounds mx') as [Hlb _]. lia. }
  destruct (binary_round_normal false (mx' + my') ez)
    as (m & e & Hres & Hdig & He & _); [lia|].
  unfold F64.prec, F64.emax. rewrite Hres.
  destruct (e <=? 971); [|done]. simpl. split; [done|]. split; [done|lia].
Qed.

Lemma add_square_class E a b :
  -1000 <= E ->
  square_class E a -> square_class E b ->
  square_class E (F64.add a b) /\
  (pos_ge E a \/ pos_ge E b -> pos_ge E (F64.add a b)).
Proof.
  intros HE Ha Hb.
  assert (Hpos : pos_ge E a \/ pos_ge E b -> pos_ge E (F64.add a b)).
  { intros Hab.
    destruct Ha as [-> | Ha], Hb as [-> | Hb].
    - destruct Hab as [[]|[]].
    - by destruct b as [| | |].
    - by destruct a as [| | |].
    - destruct a as [|sa| |sa ma ea], b as [|sb| |sb mb eb]; try done.
      + simpl in *. by subst.
      + by apply add_pos_ge. }
  split; [|done].
  destruct Ha as [-> | Ha].
  - destruct Hb as [-> | Hb]; [by left|]. right. apply Hpos. by right.
  - right. apply Hpos. by left.
Qed.

(** ** Division *)

Lemma div_finite_class s1 m1 e1 s2 m2 e2 :
  let X := (Zpos (digits2_pos m1) + e1) - (Zpos (digits2_pos m2) + e2) in
  -1021 <= X ->
  exists m' e',
    F64.div (S754_finite s1 m1 e1) (S754_finite s2 m2 e2)
    = (if e' <=? 971 then S754_finite (xorb s1 s2) m' e'
       else S754_infinity (xorb s1 s2)) /\
    Zpos (digits2_pos m') = 53 /\ X - 53 <= e'.
Proof.
  intros X HX. unfold F64.div, SFdiv, SFdiv_core_binary.
  simpl Zdigits2. rewrite fexp64_eq.
  set (d1 := Zpos (digits2_pos m1)) in *.
  set (d2 := Zpos (digits2_pos m2)) in *.
  fold X.
  assert (Hfexp : fexp64 X = X - 53) by (unfold fexp64; lia).
  rewrite Hfexp.
  set (e0 := Z.min (X - 53) (e1 - e2)).
  set (s := e1 - e2 - e0).
  assert (Hs : 0 <= s) by lia.
  assert (Hs' : 53 - d1 + d2 <= s) by lia.
  set (m' := match s with
             | 0 => Zpos m1
             | Zpos _ => Z.shiftl (Zpos m1) s
             | Zneg _ => 0
             end).
  assert (Hm' : m' = Zpos m1 * 2 ^ s).
  { subst m'. destruct s as [|p|p]; [lia| |lia].
    by rewrite Z.shiftl_mul_pow2. }
  clearbody m'.
  destruct (Z.div_eucl m' (Zpos m2)) as [q r] eqn:Hdiv.
  assert (Hq : q = m' / Zpos m2) by (unfold Z.div; by rewrite Hdiv).
  pose proof (digits2_pos_bounds m1) as [Hlb1 Hub1].
  pose proof (digits2_pos_bounds m2) as [Hlb2 Hub2].
  fold d1 in Hlb1, Hub1. fold d2 in Hlb2, Hub2.
  pose proof (digits2_pos_ge m1 1) as Hd1. fold d1 in Hd1.
  pose proof (digits2_pos_ge m2 1) as Hd2. fold d2 in Hd2.
  simpl in Hd1, Hd2. specialize (Hd1 ltac:(lia)). specialize (Hd2 ltac:(lia)).
  (* [2^(d1 + s - 1) <= m'] and [m2 < 2^d2] *)
  assert (Hm'lb : 2 ^ (d1 + s - 1) <= m').
  { rewrite Hm'. replace (d1 + s - 1) with ((d1 - 1) + s) by lia.
    rewrite Z.pow_add_r by lia.
    assert (0 < 2 ^ s) by (apply Z.pow_pos_nonneg; lia). nia. }
  assert (Hqlb : 2 ^ (d1 + s - d2 - 1) <= q).
  { rewrite Hq. apply Z.div_le_lower_bound; [lia|].
    assert (Hsplit : 2 ^ (d1 + s - 1) = 2 ^ d2 * 2 ^ (d1 + s - d2 - 1))
      by (rewrite <- Z.pow_add_r by lia; f_equal; lia).
    assert (0 < 2 ^ (d1 + s - d2 - 1)) by (apply Z.pow_pos_nonneg; lia).
    nia. }
  assert (0 < 2 ^ (d1 + s - d2 - 1)) by (apply Z.pow_pos_nonneg; lia).
  destruct q as [|qp|qp]; [lia| |lia].
  pose proof (digits2_pos_ge qp (d1 + s - d2) Hqlb) as Hdq.
  destruct (binary_round_aux_normal (xorb s1 s2) qp e0
              (new_location (Zpos m2) r))
    as (mr & er & Hres & Hdig & He & _); [lia|lia|].
  exists mr, er. unfold F64.prec, F64.emax.
  split; [exact Hres|]. split; [done|lia].
Qed.

(** ** Square root *)

Lemma sqrt_pos_nonzero E x :
  -1000 <= E -> pos_ge E x -> F64.is_zero (F64.sqrt x) = false.
Proof.
  intros HE Hx. unfold F64.sqrt.
  destruct x as [|s| |s m e]; try done.
  - simpl in Hx. by subst.
  - destruct Hx as (-> & Hdig & He).
    unfold SFsqrt, SFsqrt_core_binary. simpl Zdigits2. rewrite Hdig.
    rewrite fexp64_eq.
    set (e0 := Z.min (fexp64 (Z.div2 (53 + e + 1))) (Z.div2 e)).
    assert (He0 : e0 = Z.div2 e - 26).
    { subst e0. unfold fexp64. rewrite !Z.div2_div.
      replace (53 + e + 1) with (e + 27 * 2) by lia.
      rewrite Z.div_add by lia.
      pose proof (Z.div_mod e 2 ltac:(lia)).
      pose proof (Z.mod_pos_bound e 2 ltac:(lia)). lia. }
    set (s := e - 2 * e0).
    assert (Hs : s = 52 \/ s = 53).
    { subst s. rewrite He0, Z.div2_div.
      pose proof (Z.div_mod e 2 ltac:(lia)).
      pose proof (Z.mod_pos_bound e 2 ltac:(lia)). lia. }
    set (m' := match s with
               | 0 => Zpos m
               | Zpos _ => Z.shiftl (Zpos m) s
               | Zneg _ => 0
               end).
    assert (Hm' : m' = Zpos m * 2 ^ s).
    { subst m'. destruct s as [|p|p]; [lia| |lia].
      by rewrite Z.shiftl_mul_pow2. }
    clearbody m'.
    pose proof (digits2_pos_bounds m) as [Hlb Hub]. rewrite Hdig in Hlb, Hub.
    change (2 ^ (53 - 1)) with (2 ^ 52) in Hlb.
    assert (Hm'b : 2 ^ 104 <= m' < 2 ^ 106).
    { rewrite Hm'. destruct Hs as [-> | ->].
      - change (2 ^ 104) with (2 ^ 52 * 2 ^ 52).
        change (2 ^ 106) with (2 ^ 54 * 2 ^ 52). lia.
      - change (2 ^ 104) with (2 ^ 51 * 2 ^ 53).
        change (2 ^ 106) with (2 ^ 53 * 2 ^ 53). lia. }
    pose proof (Z.sqrtrem_spec m' ltac:(lia)) as Hsqrt.
    destruct (Z.sqrtrem m') as [q r].
    destruct Hsqrt as [Hqr Hr].
    assert (Hq : 2 ^ 52 <= q < 2 ^ 53).
    { change (2 ^ 104) with (2 ^ 52 * 2 ^ 52) in Hm'b.
      change (2 ^ 106) with (2 ^ 53 * 2 ^ 53) in Hm'b.
      split; nia. }
    destruct q as [|qp|qp]; [lia| |lia].
    assert (Hdq : Zpos (digits2_pos qp) = 53).
    { apply digits2_pos_unique. simpl. lia. }
    destruct (binary_round_aux_normal false qp e0
                (if r =? 0 then loc_Exact
                 else loc_Inexact (if r <=? Zpos qp then Lt else Gt)))
      as (mr & er & Hres & _).
    { rewrite Hdq, He0, Z.div2_div.
      pose proof (Z.div_mod e 2 ltac:(lia)).
      pose proof (Z.mod_pos_bound e 2 ltac:(lia)). lia. }
    { lia. }
    unfold F64.prec, F64.emax. rewrite Hres. by destruct (er <=? 971).
Qed.

(** ** Sums of integers *)

Lemma binary_round_int_class s p e :
  int_valued p e -> int_class (binary_round 53 1024 s p e).
Proof.
  intros Hint. pose proof (int_valued_mag p e Hint) as Hmag.
  destruct (binary_round_normal s p e) as (m' & e' & Hres & _ & _ & Hint');
    [lia|].
  rewrite Hres. destruct (e' <=? 971); [|done]. by apply Hint'.
Qed.

Lemma of_Z_int_class v : int_class (F64.of_Z v).
Proof.
  unfold F64.of_Z, binary_normalize.
  destruct v as [|p|p]; [done| |]; apply binary_round_int_class; left; lia.
Qed.

Lemma aligned_multiple mx ex ez :
  ez <= ex -> ez < 0 -> int_valued mx ex ->
  (2 ^ (- ez) | Zpos mx * 2 ^ (ex - ez)).
Proof.
  intros Hle Hneg [Hex | [c Hc]].
  - exists (Zpos mx * 2 ^ ex).
    rewrite <- Z.mul_assoc, <- Z.pow_add_r by lia. do 2 f_equal; lia.
  - destruct (Z.le_gt_cases 0 ex) as [Hex|Hex].
    + exists (Zpos mx * 2 ^ ex).
      rewrite <- Z.mul_assoc, <- Z.pow_add_r by lia. do 2 f_equal; lia.
    + exists c. rewrite Hc.
      rewrite <- Z.mul_assoc, <- Z.pow_add_r by lia. do 2 f_equal; lia.
Qed.

Lemma add_int_class a b :
  int_class a -> int_class b -> int_class (F64.add a b).
Proof.
  intros Ha Hb. unfold F64.add.
  destruct a as [sa|sa| |sa ma ea], b as [sb|sb| |sb mb eb];
    try done; try (by destruct sa, sb).
  unfold SFadd. set (ez := Z.min ea eb).
  pose proof (shl_align_spec ma ea ez) as Hx.
  pose proof (shl_align_spec mb eb ez) as Hy.
  destruct (shl_align ma ea ez) as [ma' ea'].
  destruct (shl_align mb eb ez) as [mb' eb'].
  destruct Hx as (Hea' & Hma' & _). destruct Hy as (Heb' & Hmb' & _).
  simpl fst.
  assert (Hea'' : ea' = ez) by lia. assert (Heb'' : eb' = ez) by lia.
  clear Hea' Heb'. subst ea' eb'.
  set (M := cond_Zopp sa (Zpos ma') + cond_Zopp sb (Zpos mb')).
  assert (Hdiv : ez < 0 -> (2 ^ (- ez) | M)).
  { intros Hneg. subst M. apply Z.divide_add_r.
    - destruct sa; simpl; [apply Z.divide_opp_r|]; rewrite Hma';
        apply aligned_multiple; (done || lia).
    - destruct sb; simpl; [apply Z.divide_opp_r|]; rewrite Hmb';
        apply aligned_multiple; (done || lia). }
  clearbody M. unfold binary_normalize.
  destruct M as [|p|p]; [done| |].
  - apply binary_round_int_class.
    destruct (Z.le_gt_cases 0 ez); [by left|right]. by apply Hdiv.
  - apply binary_round_int_class.
    destruct (Z.le_gt_cases 0 ez); [by left|right].
    apply Z.divide_opp_r. by apply Hdiv.
Qed.

(** ** Sums, whatever the order of the additions *)

Section Closure.

(** [P] holds of the terms of a sum and is kept by an addition; [Q] holds of
    the result of an addition as soon as it holds of one of the two terms. *)
Variables P Q : F64.float -> Prop.
Hypothesis P_zero : P F64.zero.
Hypothesis PQ_add : forall a b, P a -> P b ->
  P (F64.add a b) /\ (Q a \/ Q b -> Q (F64.add a b)).

Lemma foldl_closed fs : forall acc,
  P acc -> Forall P fs ->
  P (foldl F64.add acc fs) /\
  (Q acc \/ Exists Q fs -> Q (foldl F64.add acc fs)).
Proof.
  induction fs as [|f fs IH]; intros acc Hacc Hfs; simpl.
  - split; [done|]. intros [?|Hex]; [done|]. by inversion Hex.
  - inversion Hfs as [|? ? Hf Hfs']; subst.
    destruct (PQ_add acc f Hacc Hf) as [Hp Hq].
    destruct (IH (F64.add acc f) Hp Hfs') as [Hp' Hq'].
    split; [done|]. intros [Ha | Hex].
    + apply Hq'. left. apply Hq. by left.
    + inversion Hex; subst.
      * apply Hq'. left. apply Hq. by right.
      * apply Hq'. by right.
Qed.

Lemma zip_add_closed r : forall b,
  length r = length b -> Forall P r -> Forall P b ->
  Forall P (zip_with F64.add r b) /\
  (Exists Q r \/ Exists Q b -> Exists Q (zip_with F64.add r b)).
Proof.
  induction r as [|x r IH]; intros [|y b] Hlen Hr Hb; simpl in *; try lia.
  - split; [done|]. intros [H|H]; inversion H.
  - inversion Hr as [|? ? Hx Hr']; inversion Hb as [|? ? Hy Hb']; subst.
    destruct (PQ_add x y Hx Hy) as [Hp Hq].
    destruct (IH b ltac:(lia) Hr' Hb') as [Hp' Hq'].
    split; [by constructor|].
    intros [H|H]; inversion H; subst.
    + apply Exists_cons_hd, Hq. by left.
    + apply Exists_cons_tl, Hq'. by left.
    + apply Exists_cons_hd, Hq. by right.
    + apply Exists_cons_tl, Hq'. by right.
Qed.

Lemma Exists_take_drop {A} (R : A -> Prop) n (a : list A) :
  Exists R a -> Exists R (take n a) \/ Exists R (drop n a).
Proof.
  intros H. rewrite <- (take_drop n a) in H. by apply Exists_app in H.
Qed.

Lemma accumulate8_closed blocks : forall r a r' rest,
  length r = 8%nat -> (8 * blocks <= length a)%nat ->
  Forall P r -> Forall P a ->
  accumulate8 blocks r a = (r', rest) ->
  length r' = 8%nat /\ Forall P r' /\ Forall P rest /\
  (Exists Q r \/ Exists Q a -> Exists Q r' \/ Exists Q rest).
Proof.
  induction blocks as [|blocks IH]; intros r a r' rest Hlen Ha Hr Hfa Hacc;
    simpl in Hacc.
  - injection Hacc as <- <-. done.
  - assert (Htake : length (take 8 a) = 8%nat) by (rewrite length_take; lia).
    destruct (zip_add_closed r (take 8 a)) as [Hp Hq];
      [lia|done|by apply Forall_take|].
    assert (Hfd : Forall P (drop 8 a)) by by apply Forall_drop.
    assert (Hlz : length (zip_with F64.add r (take 8 a)) = 8%nat)
      by (rewrite length_zip_with; lia).
    assert (Hld : (8 * blocks <= length (drop 8 a))%nat)
      by (rewrite length_drop; lia).
    destruct (IH _ _ _ _ Hlz Hld Hp Hfd Hacc) as (Hl' & Hr' & Hrest & Hex).
    split; [done|]. split; [done|]. split; [done|].
    intros [H|H].
    + apply Hex. left. apply Hq. by left.
    + destruct (Exists_take_drop Q 8 a H) as [Ht|Hd].
      * apply Hex. left. apply Hq. by right.
      * apply Hex. by right.
Qed.

Lemma sum_block_closed a :
  Forall P a -> P (sum_block a) /\ (Exists Q a -> Q (sum_block a)).
Proof.
  intros Hfa. unfold sum_block.
  destruct (decide (8 <= length a)%nat) as [Hlong|Hshort].
  - destruct (accumulate8 (length a / 8 - 1) (take 8 a) (drop 8 a))
      as [r rest] eqn:Hacc.
    assert (Hft : Forall P (take 8 a)) by by apply Forall_take.
    assert (Hfd : Forall P (drop 8 a)) by by apply Forall_drop.
    assert (Hlt : length (take 8 a) = 8%nat) by (rewrite length_take; lia).
    assert (Hld : (8 * (length a / 8 - 1) <= length (drop 8 a))%nat).
    { rewrite length_drop.
      pose proof (Nat.div_mod (length a) 8 ltac:(lia)). lia. }
    destruct (accumulate8_closed _ _ _ _ _ Hlt Hld Hft Hfd Hacc)
      as (Hl & Hr & Hrest & Hex).
    destruct r as [|r0 [|r1 [|r2 [|r3 [|r4 [|r5 [|r6 [|r7 [|? ?]]]]]]]]];
      try discriminate.
    apply Forall_cons in Hr as [H0 Hr]. apply Forall_cons in Hr as [H1 Hr].
    apply Forall_cons in Hr as [H2 Hr]. apply Forall_cons in Hr as [H3 Hr].
    apply Forall_cons in Hr as [H4 Hr]. apply Forall_cons in Hr as [H5 Hr].
    apply Forall_cons in Hr as [H6 Hr]. apply Forall_cons in Hr as [H7 _].
    destruct (PQ_add r0 r1 H0 H1) as [P01 Q01].
    destruct (PQ_add r2 r3 H2 H3) as [P23 Q23].
    destruct (PQ_add r4 r5 H4 H5) as [P45 Q45].
    destruct (PQ_add r6 r7 H6 H7) as [P67 Q67].
    destruct (PQ_add _ _ P01 P23) as [P03 Q03].
    destruct (PQ_add _ _ P45 P67) as [P47 Q47].
    destruct (PQ_add _ _ P03 P47) as [P07 Q07].
    destruct (foldl_closed rest _ P07 Hrest) as [Hp Hq].
    split; [done|]. intros Hqa. apply Hq.
    destruct (Exists_take_drop Q 8 a Hqa) as [Ht|Hd].
    + destruct (Hex (or_introl Ht)) as [Hqr|Hqrest]; [left|by right].
      rewrite !Exists_cons, Exists_nil in Hqr.
      destruct Hqr as [?|[?|[?|[?|[?|[?|[?|[?|[]]]]]]]]]; auto 10.
    + destruct (Hex (or_intror Hd)) as [Hqr|Hqrest]; [left|by right].
      rewrite !Exists_cons, Exists_nil in Hqr.
      destruct Hqr as [?|[?|[?|[?|[?|[?|[?|[?|[]]]]]]]]]; auto 10.
  - assert (Hdiv : (length a / 8 - 1 = 0)%nat).
    { rewrite Nat.div_small by lia. done. }
    rewrite Hdiv. simpl accumulate8.
    rewrite take_ge by lia.
    destruct (foldl_closed a F64.zero P_zero Hfa) as [Hp Hq].
    assert (Hq' : Exists Q a -> Q (foldl F64.add F64.zero a)) by auto.
    destruct a as [|a0 [|a1 [|a2 [|a3 [|a4 [|a5 [|a6 [|a7 a]]]]]]]];
      simpl in Hshort; try lia; done.
Qed.

Lemma pairwise_sum_closed fuel : forall a,
  Forall P a ->
  P (pairwise_sum fuel a) /\ (Exists Q a -> Q (pairwise_sum fuel a)).
Proof.
  induction fuel as [|fuel IH]; intros a Hfa; simpl.
  - destruct (length a <? 8)%nat.
    + destruct (foldl_closed a F64.zero P_zero Hfa) as [Hp Hq]. auto.
    + destruct (length a <=? 128)%nat; by apply sum_block_closed.
  - destruct (length a <? 8)%nat.
    + destruct (foldl_closed a F64.zero P_zero Hfa) as [Hp Hq]. auto.
    + destruct (length a <=? 128)%nat; [by apply sum_block_closed|].
      set (n2 := (length a / 2 - (length a / 2) mod 8)%nat).
      assert (Hft : Forall P (take n2 a)) by by apply Forall_take.
      assert (Hfd : Forall P (drop n2 a)) by by apply Forall_drop.
      destruct (IH (take n2 a) Hft) as [Hp1 Hq1].
      destruct (IH (drop n2 a) Hfd) as [Hp2 Hq2].
      destruct (PQ_add _ _ Hp1 Hp2) as [Hp Hq].
      split; [done|]. intros Hqa. apply Hq.
      destruct (Exists_take_drop Q n2 a Hqa); auto.
Qed.

Lemma chunks_closed {A} (R T : A -> Prop) fuel size : forall a : list A,
  (Forall R a -> Forall (Forall R) (chunks fuel size a)) /\
  (Exists T a -> Exists (Exists T) (chunks fuel size a)).
Proof.
  induction fuel as [|fuel IH]; intros [|x a].
  - split; [done|]. intros H. inversion H.
  - split; intros H; simpl; [by constructor|by apply Exists_cons_hd].
  - split; [done|]. intros H. inversion H.
  - change (chunks (S fuel) size (x :: a))
      with (take size (x :: a) :: chunks fuel size (drop size (x :: a))).
    destruct (IH (drop size (x :: a))) as [Hf He]. split.
    + intros H. constructor; [by apply Forall_take|].
      by apply Hf, Forall_drop.
    + intros H. destruct (Exists_take_drop T size _ H) as [Ht|Hd].
      * by apply Exists_cons_hd.
      * by apply Exists_cons_tl, He.
Qed.

Lemma parts_closed parts : forall acc,
  P acc -> Forall (Forall P) parts ->
  P (foldl (fun acc part => F64.add acc (pairwise_sum (length part) part))
       acc parts) /\
  (Q acc \/ Exists (Exists Q) parts ->
   Q (foldl (fun acc part => F64.add acc (pairwise_sum (length part) part))
        acc parts)).
Proof.
  induction parts as [|part parts IH]; intros acc Hacc Hparts; simpl.
  - split; [done|]. intros [?|Hex]; [done|]. by inversion Hex.
  - inversion Hparts as [|? ? Hpart Hparts']; subst.
    destruct (pairwise_sum_closed (length part) part Hpart) as [Hp1 Hq1].
    destruct (PQ_add acc _ Hacc Hp1) as [Hp Hq].
    destruct (IH _ Hp Hparts') as [Hp' Hq'].
    split; [done|]. intros [Ha | Hex].
    + apply Hq'. left. apply Hq. by left.
    + inversion Hex; subst.
      * apply Hq'. left. apply Hq. right. by apply Hq1.
      * apply Hq'. by right.
Qed.

Lemma add_reduce_closed buffered a :
  Forall P a ->
  P (add_reduce buffered a) /\ (Exists Q a -> Q (add_reduce buffered a)).
Proof.
  intros Hfa. unfold add_reduce.
  set (parts := if buffered then chunks (length a) bufsize a else [a]).
  assert (Hparts : Forall (Forall P) parts /\
                   (Exists Q a -> Exists (Exists Q) parts)).
  { subst parts. destruct buffered.
    - destruct (chunks_closed P Q (length a) bufsize a). auto.
    - split; [by constructor|]. intros H. by apply Exists_cons_hd. }
  destruct Hparts as [Hf He].
  destruct (parts_closed parts F64.zero P_zero Hf) as [Hp Hq].
  split; [done|]. intros H. apply Hq. right. by apply He.
Qed.

(** The sum of a column has the property of its terms, in whichever order
    the reduction adds them. *)
Lemma column_sum_closed buffered k fs :
  Forall P fs ->
  P (column_sum buffered k fs) /\ (Exists Q fs -> Q (column_sum buffered k fs)).
Proof.
  intros Hfs. unfold column_sum. destruct (Nat.eqb k 1).
  - by apply add_reduce_closed.
  - destruct (foldl_closed fs F64.zero P_zero Hfs) as [Hp Hq]. auto.
Qed.

End Closure.

Lemma column_sum_int_class buffered k fs :
  Forall int_class fs -> int_class (column_sum buffered k fs).
Proof.
  intros Hfs.
  apply (column_sum_closed int_class (fun _ => False)); [done| |done].
  intros a b Ha Hb. split; [by apply add_int_class|]. by intros [[]|[]].
Qed.

(** A sum of squares, one of which is not zero, is not zero. *)
Lemma column_sum_square_class E buffered k qs :
  -1000 <= E -> Forall (square_class E) qs ->
  square_class E (column_sum buffered k qs) /\
  (Exists (pos_ge E) qs -> pos_ge E (column_sum buffered k qs)).
Proof.
  intros HE Hqs.
  apply (column_sum_closed (square_class E) (pos_ge E)); [by left| |done].
  intros a b Ha Hb. by apply add_square_class.
Qed.

(** ** The fuel of the recursions suffices *)

(** The pairwise sum does not depend on its fuel, once that is the length
    of the run or more. *)
Lemma pairwise_sum_S fuel a :
  pairwise_sum (S fuel) a
  = if (length a <? 8)%nat then foldl F64.add F64.zero a
    else if (length a <=? 128)%nat then sum_block a
    else F64.add
           (pairwise_sum fuel
              (take (length a / 2 - (length a / 2) mod 8)%nat a))
           (pairwise_sum fuel
              (drop (length a / 2 - (length a / 2) mod 8)%nat a)).
Proof. reflexivity. Qed.

Lemma pairwise_sum_fuel f1 : forall f2 a,
  (length a <= f1)%nat -> (length a <= f2)%nat ->
  pairwise_sum f1 a = pairwise_sum f2 a.
Proof.
  induction f1 as [|f1 IH]; intros f2 a H1 H2.
  - destruct a; [|simpl in H1; lia]. by destruct f2.
  - destruct f2 as [|f2].
    { destruct a; [done|simpl in H2; lia]. }
    rewrite !pairwise_sum_S. destruct (length a <? 8)%nat; [done|].
    destruct (length a <=? 128)%nat eqn:Hn; [done|].
    apply Nat.leb_gt in Hn.
    set (n2 := (length a / 2 - (length a / 2) mod 8)%nat).
    assert (Hn2 : (1 <= n2 < length a)%nat).
    { subst n2.
      pose proof (Nat.div_mod (length a) 2 ltac:(lia)).
      pose proof (Nat.mod_upper_bound (length a) 2 ltac:(lia)).
      pose proof (Nat.mod_upper_bound (length a / 2) 8 ltac:(lia)). lia. }
    f_equal; apply IH; rewrite ?length_take, ?length_drop; lia.
Qed.

(** The buffers of a run hold the run, in its order, and none holds more
    than the size of the buffer. *)
Lemma chunks_concat {A} fuel size : forall a : list A,
  concat (chunks fuel size a) = a.
Proof.
  induction fuel as [|fuel IH]; intros [|x a]; try done.
  - simpl. by rewrite app_nil_r.
  - change (chunks (S fuel) size (x :: a))
      with (take size (x :: a) :: chunks fuel size (drop size (x :: a))).
    simpl concat. rewrite IH. apply take_drop.
Qed.

Lemma chunks_length {A} fuel size : forall a : list A,
  (0 < size)%nat -> (length a <= fuel)%nat ->
  Forall (fun part => (length part <= size)%nat) (chunks fuel size a).
Proof.
  induction fuel as [|fuel IH]; intros [|x a] Hsize Hfuel; simpl in Hfuel;
    try done; try lia.
  change (chunks (S fuel) size (x :: a))
    with (take size (x :: a) :: chunks fuel size (drop size (x :: a))).
  constructor.
  - rewrite length_take. lia.
  - apply IH; [done|]. rewrite length_drop. simpl. lia.
Qed.
(** ** The statistics of one column *)

Lemma pos_ge_mono E E' x : E' <= E -> pos_ge E x -> pos_ge E' x.
Proof.
  intros HE. destruct x; simpl; try done. intros (? & ? & ?). repeat split; (done || lia).
Qed.

Lemma finite_ge_mono E E' x : E' <= E -> finite_ge E x -> finite_ge E' x.
Proof. intros HE. destruct x; simpl; try done. intros [? ?]; split; lia. Qed.

(** The row count, as a float. *)
Lemma count_float n :
  (0 < n)%nat -> Z.of_nat n <= F64.max_int64 ->
  exists m e, F64.of_Z (Z.of_nat n) = S754_finite false m e /\
              Zpos (digits2_pos m) = 53 /\ e <= 12.
Proof.
  intros Hn Hmax. unfold F64.max_int64 in Hmax.
  destruct (of_Z_nonzero (Z.of_nat n)) as (m & e & Hres & Hdig & He & _).
  - lia.
  - assert (2 ^ 63 < 2 ^ 64) by done. lia.
  - exists m, e. rewrite Hres.
    replace (Z.of_nat n <? 0) with false by (symmetry; apply Z.ltb_ge; lia).
    split; [done|]. split; [done|lia].
Qed.

(** The mean of a column of [int64] cells is a NaN, a zero, an infinity or
    a normal number of exponent at least -117, in whichever order the cells
    are added. *)
Lemma column_mean_class k vs :
  (0 < length vs)%nat -> Z.of_nat (length vs) <= F64.max_int64 ->
  column_mean k vs = S754_nan \/
  F64.is_zero (column_mean k vs) = true \/
  normal_ge (-117) (column_mean k vs).
Proof.
  intros Hn Hmax. unfold column_mean.
  destruct (count_float (length vs) Hn Hmax) as (m2 & e2 & -> & Hd2 & He2).
  assert (Hint : int_class (column_sum true k (F64.of_Z <$> vs))).
  { apply column_sum_int_class. apply Forall_fmap, Forall_forall.
    intros v _. apply of_Z_int_class. }
  destruct (column_sum true k (F64.of_Z <$> vs)) as [s|s| |s m1 e1].
  - right. left. done.
  - right. right. done.
  - by left.
  - right. right. simpl in Hint.
    pose proof (int_valued_mag m1 e1 Hint) as Hmag.
    destruct (div_finite_class s m1 e1 false m2 e2) as (m' & e' & Hres & Hdig & He').
    { lia. }
    rewrite Hres. destruct (e' <=? 971); [|done]. simpl. split; [done|lia].
Qed.

Lemma column_std_zero k vs v :
  Forall int64 vs ->
  (0 < length vs)%nat -> Z.of_nat (length vs) <= F64.max_int64 ->
  v ∈ vs ->
  F64.is_zero (column_std k vs) = true ->
  F64.is_zero (F64.sub (F64.of_Z v) (column_mean k vs)) = true \/
  F64.sub (F64.of_Z v) (column_mean k vs) = S754_nan.
Proof.
  intros Hint64 Hn Hmax Hv Hstd.
  assert (Hcell : forall u, u ∈ vs ->
            F64.of_Z u = S754_zero false \/ finite_ge (-117) (F64.of_Z u)).
  { intros u Hu. rewrite Forall_forall in Hint64.
    pose proof (Hint64 u Hu) as [Hlo Hhi].
    unfold F64.min_int64, F64.max_int64 in *.
    assert (2 ^ 63 < 2 ^ 64) by done.
    destruct (of_Z_class u) as [?|Hf]; [lia|by left|right].
    eapply finite_ge_mono; [|exact Hf]. lia. }
  destruct (column_mean_class k vs Hn Hmax) as [Hnan | Hmean].
  { right. rewrite Hnan. unfold F64.sub.
    by destruct (F64.of_Z v) as [[]|[]| |]. }
  assert (Hdev : forall u, u ∈ vs ->
            F64.is_zero (F64.sub (F64.of_Z u) (column_mean k vs)) = true \/
            normal_ge (-169) (F64.sub (F64.of_Z u) (column_mean k vs))).
  { intros u Hu.
    apply (sub_class (-117)); [lia|by apply Hcell|done]. }
  destruct (Hdev v Hv) as [Hzero | Hnormal]; [by left|exfalso].
  (* the deviation of [v] is not zero: neither is the standard deviation *)
  set (square := fun u : Z =>
         let d := F64.sub (F64.of_Z u) (column_mean k vs) in F64.mul d d).
  assert (Hsquares : Forall (square_class (-286)) (square <$> vs)).
  { apply Forall_fmap, Forall_forall. intros u Hu. unfold square. simpl.
    destruct (Hdev u Hu) as [Hz | Hnz].
    - left. by apply mul_self_zero.
    - right. by apply (mul_self_normal (-169)). }
  assert (Hone : Exists (pos_ge (-286)) (square <$> vs)).
  { apply Exists_fmap, Exists_exists. exists v. split; [done|].
    unfold square. simpl. by apply (mul_self_normal (-169)). }
  destruct (column_sum_square_class (-286) false k (square <$> vs))
    as [_ Hsum]; [lia|done|].
  specialize (Hsum Hone).
  destruct (count_float (length vs) Hn Hmax) as (m2 & e2 & Hcount & Hd2 & He2).
  assert (Hvar : pos_ge (-351)
            (F64.div (column_sum false k (square <$> vs))
                     (F64.of_Z (Z.of_nat (length vs))))).
  { rewrite Hcount.
    destruct (column_sum false k (square <$> vs)) as [|s| |s m1 e1];
      try done.
    - simpl in Hsum. subst s. done.
    - destruct Hsum as (-> & Hd1 & He1).
      destruct (div_finite_class false m1 e1 false m2 e2)
        as (m' & e' & Hres & Hdig & He'); [lia|].
      rewrite Hres. destruct (e' <=? 971); [|done].
      simpl. split; [done|]. split; [done|lia]. }
  pose proof (sqrt_pos_nonzero (-351) _ ltac:(lia) Hvar) as Hsqrt.
  unfold column_std in Hstd. fold square in Hstd. congruence.
Qed.

(** * The filter *)

(** ** Shapes of the statistics *)

Lemma cell_Some {A} (a : list (list A)) i j r v :
  a !! i = Some r -> r !! j = Some v -> cell a i j = Some v.
Proof. intros Hr Hv. unfold cell. rewrite Hr. exact Hv. Qed.

Lemma sum_axis0_length buffered k x :
  rectangular k x -> length (sum_axis0 buffered k x) = k.
Proof.
  unfold sum_axis0. intros Hx.
  destruct (Nat.eqb k 1) eqn:Hk; [by apply Nat.eqb_eq in Hk|].
  assert (Hacc : length (replicate k F64.zero) = k) by apply length_replicate.
  revert Hacc. generalize (replicate k F64.zero).
  induction Hx as [|r x Hr _ IH]; intros acc Hacc; simpl; [done|].
  apply IH. rewrite length_zip_with. lia.
Qed.

Lemma to_float64_rectangular k t :
  rectangular k t -> rectangular k (to_float64 t).
Proof.
  unfold rectangular, to_float64. intros H. apply Forall_fmap.
  eapply Forall_impl; [exact H|]. intros r Hr. simpl in *. by rewrite length_fmap.
Qed.

Lemma mean_axis0_length t :
  rectangular (shape1 t) t -> length (mean_axis0 t) = shape1 t.
Proof.
  intros H. unfold mean_axis0. rewrite length_fmap.
  by apply sum_axis0_length, to_float64_rectangular.
Qed.

Lemma sub_row_rectangular k t v :
  rectangular k t -> length v = k -> rectangular k (sub_row t v).
Proof.
  unfold rectangular, sub_row, to_float64. intros H Hv.
  rewrite <- list_fmap_compose. apply Forall_fmap.
  eapply Forall_impl; [exact H|]. intros r Hr. simpl in *.
  rewrite length_zip_with, length_fmap. lia.
Qed.

Lemma std_axis0_length t :
  rectangular (shape1 t) t -> length (std_axis0 t) = shape1 t.
Proof.
  intros H. unfold std_axis0. rewrite length_fmap.
  apply sum_axis0_length. unfold rectangular. apply Forall_fmap.
  eapply Forall_impl;
    [apply (sub_row_rectangular _ _ _ H), mean_axis0_length, H|].
  intros r Hr. simpl in *. by rewrite length_fmap.
Qed.

Lemma zscores_shape0 t : shape0 (zscores t) = shape0 t.
Proof.
  unfold shape0, zscores, sub_row, to_float64. by rewrite !length_fmap.
Qed.

Lemma zscores_rectangular t :
  rectangular (shape1 t) t -> rectangular (shape1 t) (zscores t).
Proof.
  intros H. unfold zscores, rectangular. apply Forall_fmap.
  eapply Forall_impl;
    [apply (sub_row_rectangular _ _ _ H), mean_axis0_length, H|].
  intros r Hr. simpl in *.
  rewrite length_fmap, length_zip_with, std_axis0_length by done. lia.
Qed.

Lemma rectangular_shape1 {A} k (a : list (list A)) :
  (0 < shape0 a)%nat -> rectangular k a -> shape1 a = k.
Proof.
  unfold shape0, shape1. destruct a as [|r a]; simpl; intros Hn H; [lia|].
  by inversion H.
Qed.

Lemma zscores_shape1 t :
  (0 < shape0 t)%nat -> rectangular (shape1 t) t ->
  shape1 (zscores t) = shape1 t.
Proof.
  intros Hn H. apply rectangular_shape1; [by rewrite zscores_shape0|].
  by apply zscores_rectangular.
Qed.

(** The z-score of a cell, as the source computes it. *)
Lemma zscores_cell t i j r v mj sj :
  t !! i = Some r -> r !! j = Some v ->
  mean_axis0 t !! j = Some mj -> std_axis0 t !! j = Some sj ->
  cell (zscores t) i j
  = Some (F64.abs (F64.div (F64.sub (F64.of_Z v) mj) sj)).
Proof.
  intros Hr Hv Hm Hs. unfold cell, zscores, sub_row, to_float64.
  rewrite !list_lookup_fmap, Hr. simpl.
  rewrite list_lookup_fmap, lookup_zip_with, lookup_zip_with.
  rewrite list_lookup_fmap, Hv. simpl. rewrite Hm. simpl. by rewrite Hs.
Qed.

Lemma np_array_rectangular t :
  (0 < shape0 t)%nat -> rectangular (shape1 t) t ->
  np_array t = Ok (Matrix t).
Proof.
  unfold shape0, shape1, rectangular.
  destruct t as [|r t]; simpl; intros Hn H; [lia|].
  inversion H as [|? ? _ Ht]; subst.
  replace (forallb _ t) with true; [done|].
  symmetry. apply forallb_forall. intros r' Hin.
  apply Nat.eqb_eq. rewrite Forall_forall in Ht. apply Ht.
  by apply list_elem_of_In.
Qed.

Lemma np_array_cases t :
  (t = [] /\ np_array t = Ok Empty1) \/
  np_array t = Raise ValueError \/
  ((0 < shape0 t)%nat /\ rectangular (shape1 t) t /\
   np_array t = Ok (Matrix t)).
Proof.
  destruct t as [|r t]; [by left|right]. simpl.
  destruct (forallb _ t) eqn:Hall; [right|by left].
  split; [unfold shape0; simpl; lia|]. split; [|done].
  unfold rectangular, shape1. simpl. constructor; [done|].
  rewrite forallb_forall in Hall. apply Forall_forall. intros r' Hin.
  apply Nat.eqb_eq, Hall. by apply list_elem_of_In.
Qed.

(** ** The loops, as pure folds *)

Lemma row_step_length threshold zr m row j :
  length (row_step threshold zr m row j) = length row.
Proof.
  unfold row_step. repeat case_match; try done. apply length_insert.
Qed.

Lemma row_fold_length threshold zr m js row :
  length (foldl (row_step threshold zr m) row js) = length row.
Proof.
  revert row. induction js as [|j js IH]; intros row; simpl; [done|].
  by rewrite IH, row_step_length.
Qed.

Lemma table_step_length threshold z m k cur i :
  length (table_step threshold z m k cur i) = length cur.
Proof.
  unfold table_step. repeat case_match; try done. apply length_insert.
Qed.

Lemma table_step_rectangular threshold z m k n cur i :
  rectangular n cur -> rectangular n (table_step threshold z m k cur i).
Proof.
  intros H. unfold table_step.
  destruct (z !! i) as [zr|]; [|done].
  destruct (cur !! i) as [row|] eqn:Hrow; [|done].
  apply Forall_insert; [done|]. unfold row_loop.
  rewrite row_fold_length. eapply (Forall_lookup_1 _ _ _ _ H), Hrow.
Qed.

Lemma table_fold_length threshold z m k ixs cur :
  length (foldl (table_step threshold z m k) cur ixs) = length cur.
Proof.
  revert cur. induction ixs as [|i ixs IH]; intros cur; simpl; [done|].
  by rewrite IH, table_step_length.
Qed.

Lemma table_fold_rectangular threshold z m k n ixs cur :
  rectangular n cur -> rectangular n (foldl (table_step threshold z m k) cur ixs).
Proof.
  revert cur. induction ixs as [|i ixs IH]; intros cur H; simpl; [done|].
  by apply IH, table_step_rectangular.
Qed.

(** A cell of a row after the inner loop has run over the columns
    [j0 .. j0 + len - 1]. *)
Lemma row_fold_lookup threshold zr m len : forall j0 row j,
  foldl (row_step threshold zr m) row (seq j0 len) !! j
  = if decide (j0 <= j < j0 + len)%nat
    then match zr !! j, m !! j with
         | Some zv, Some mv => clamp_cell threshold zv mv <$> row !! j
         | _, _ => row !! j
         end
    else row !! j.
Proof.
  induction len as [|len IH]; intros j0 row j; simpl.
  - case_decide; [lia|done].
  - rewrite IH. destruct (decide (j = j0)) as [->|Hne].
    + rewrite decide_False, decide_True by lia.
      unfold row_step, clamp_cell.
      destruct (zr !! j0) as [zv|]; [|done].
      destruct (m !! j0) as [mv|]; [|done].
      destruct (F64.gtb zv threshold); [|by destruct (row !! j0)].
      destruct (F64.to_int64 mv) as [x|e]; [|by destruct (row !! j0)].
      destruct (row !! j0) as [v|] eqn:Hv; simpl.
      * apply list_lookup_insert_eq. by eapply lookup_lt_Some.
      * rewrite list_insert_ge; [done|]. by apply lookup_ge_None.
    + assert (Hsame : row_step threshold zr m row j0 !! j = row !! j).
      { unfold row_step. repeat case_match; try done.
        by apply list_lookup_insert_ne. }
      rewrite Hsame.
      destruct (decide (S j0 <= j < S j0 + len)%nat);
        [rewrite decide_True by lia | rewrite decide_False by lia]; done.
Qed.

Lemma table_fold_lookup threshold z m k len : forall i0 cur i,
  foldl (table_step threshold z m k) cur (seq i0 len) !! i
  = if decide (i0 <= i < i0 + len)%nat
    then match z !! i with
         | Some zr => row_loop threshold m k zr <$> cur !! i
         | None => cur !! i
         end
    else cur !! i.
Proof.
  induction len as [|len IH]; intros i0 cur i; simpl.
  - case_decide; [lia|done].
  - rewrite IH. destruct (decide (i = i0)) as [->|Hne].
    + rewrite decide_False, decide_True by lia.
      unfold table_step.
      destruct (z !! i0) as [zr|]; [|done].
      destruct (cur !! i0) as [row|] eqn:Hrow; simpl; [|done].
      apply list_lookup_insert_eq. by eapply lookup_lt_Some.
    + assert (Hsame : table_step threshold z m k cur i0 !! i = cur !! i).
      { unfold table_step. repeat case_match; try done.
        by apply list_lookup_insert_ne. }
      rewrite Hsame.
      destruct (decide (S i0 <= i < S i0 + len)%nat);
        [rewrite decide_True by lia | rewrite decide_False by lia]; done.
Qed.

(** Every cell of the filtered table is the clamped cell of the input. *)
Lemma filtered_cell threshold t i j r v zv mv :
  (0 < shape0 t)%nat -> rectangular (shape1 t) t ->
  t !! i = Some r -> r !! j = Some v ->
  cell (zscores t) i j = Some zv -> mean_axis0 t !! j = Some mv ->
  cell (filtered threshold t) i j = Some (clamp_cell threshold zv mv v).
Proof.
  intros Hn Hrect Hr Hv Hz Hm. unfold cell in *. unfold filtered.
  rewrite table_fold_lookup.
  destruct (zscores t !! i) as [zr|] eqn:Hzr; [simpl in Hz|done].
  rewrite decide_True.
  2:{ split; [lia|]. rewrite zscores_shape0. apply lookup_lt_Some in Hr.
      unfold shape0. lia. }
  rewrite Hr. simpl. unfold row_loop. rewrite row_fold_lookup.
  rewrite decide_True.
  2:{ split; [lia|]. rewrite zscores_shape1 by done.
      apply lookup_lt_Some in Hm. rewrite mean_axis0_length in Hm by done. lia. }
  by rewrite Hz, Hm, Hv.
Qed.

Lemma filtered_shape0 threshold t : shape0 (filtered threshold t) = shape0 t.
Proof. unfold shape0, filtered. apply table_fold_length. Qed.

Lemma filtered_rectangular threshold t n :
  rectangular n t -> rectangular n (filtered threshold t).
Proof. apply table_fold_rectangular. Qed.

(** ** The cells that the loops leave alone *)

Lemma untouched_refl threshold z cur : untouched threshold z cur cur.
Proof. by intros i j _. Qed.

Lemma untouched_trans threshold z cur1 cur2 cur3 :
  untouched threshold z cur1 cur2 -> untouched threshold z cur2 cur3 ->
  untouched threshold z cur1 cur3.
Proof. intros H12 H23 i j Hz. by rewrite H23, H12. Qed.

Lemma row_step_untouched threshold zr m row j j' :
  (forall zv, zr !! j' = Some zv -> F64.gtb zv threshold = false) ->
  row_step threshold zr m row j !! j' = row !! j'.
Proof.
  intros Hz. unfold row_step.
  destruct (zr !! j) as [zv|] eqn:Hzv; [|done].
  destruct (m !! j) as [mv|]; [|done].
  destruct (F64.gtb zv threshold) eqn:Hgt; [|done].
  destruct (F64.to_int64 mv) as [x|e]; [|done].
  destruct (decide (j' = j)) as [->|Hne].
  - by rewrite (Hz zv Hzv) in Hgt.
  - by apply list_lookup_insert_ne.
Qed.

Lemma row_fold_untouched threshold zr m js : forall row j',
  (forall zv, zr !! j' = Some zv -> F64.gtb zv threshold = false) ->
  foldl (row_step threshold zr m) row js !! j' = row !! j'.
Proof.
  induction js as [|j js IH]; intros row j' Hz; simpl; [done|].
  by rewrite IH, row_step_untouched.
Qed.

Lemma insert_untouched threshold z (cur : table) i zr row row' :
  z !! i = Some zr -> cur !! i = Some row ->
  (forall j', (forall zv, zr !! j' = Some zv -> F64.gtb zv threshold = false) ->
     row' !! j' = row !! j') ->
  untouched threshold z cur (<[i := row']> cur).
Proof.
  intros Hzr Hrow Hsame i' j' Hz. unfold cell in *.
  destruct (decide (i' = i)) as [->|Hne].
  - rewrite list_lookup_insert_eq by by eapply lookup_lt_Some.
    rewrite Hrow. simpl. apply Hsame. intros zv Hzv. apply Hz.
    by rewrite Hzr.
  - by rewrite list_lookup_insert_ne.
Qed.

(** ** Running the loops on the heap *)

Section Loops.

Variable threshold : F64.float.
Variable z : list (list F64.float).
Variable m : list F64.float.
(** The objects allocated before the array, the lines printed and the file:
    none of them changes while the loops run. *)
Variable h : list pyobj.
Variable out : list string.
Variable file : option (list string).

Lemma setitem2_during cur i j v row :
  cur !! i = Some row -> (j < length row)%nat ->
  setitem2 (length h) i j v (during h out file cur)
  = (Ok tt, during h out file (<[i := <[j := v]> row]> cur)).
Proof.
  intros Hrow Hj. unfold setitem2, bind, deref, during. simpl.
  rewrite list_lookup_middle by done. unfold getitem. rewrite Hrow.
  unfold ret. apply Nat.ltb_lt in Hj. rewrite Hj.
  unfold assign. simpl. f_equal. f_equal.
  rewrite insert_app_r_alt by lia. by rewrite Nat.sub_diag.
Qed.

(** One cell: either the body succeeds and leaves the row that [row_step]
    gives, or the conversion of the mean fails and the array is left as it
    is. *)
Lemma cell_body_during cur i j zr row :
  z !! i = Some zr -> cur !! i = Some row ->
  (j < length zr)%nat -> (j < length m)%nat -> (j < length row)%nat ->
  (cell_ok threshold zr m j = true /\
   cell_body threshold z m (length h) i j (during h out file cur)
   = (Ok tt, during h out file (<[i := row_step threshold zr m row j]> cur)))
  \/
  (cell_ok threshold zr m j = false /\
   exists e, fails_at threshold z m i j e /\
     cell_body threshold z m (length h) i j (during h out file cur)
     = (Raise e, during h out file cur)).
Proof.
  intros Hzr Hrow Hjz Hjm Hjr.
  destruct (lookup_lt_is_Some_2 zr j Hjz) as [zv Hzv].
  destruct (lookup_lt_is_Some_2 m j Hjm) as [mv Hmv].
  assert (Hbody :
    cell_body threshold z m (length h) i j (during h out file cur)
    = if F64.gtb zv threshold
      then match F64.to_int64 mv with
           | Ok x => (Ok tt, during h out file (<[i := <[j := x]> row]> cur))
           | Raise e => (Raise e, during h out file cur)
           end
      else (Ok tt, during h out file cur)).
  { unfold cell_body.
    unfold bind at 1. unfold getitem at 1. rewrite Hzr. unfold ret at 1.
    unfold bind at 1. unfold getitem at 1. rewrite Hzv. unfold ret at 1.
    destruct (F64.gtb zv threshold); [|done].
    unfold bind at 1. unfold getitem at 1. rewrite Hmv. unfold ret at 1.
    unfold bind at 1. unfold lift at 1.
    destruct (F64.to_int64 mv) as [x|e]; [|done].
    by apply setitem2_during. }
  rewrite Hbody. unfold row_step, cell_ok, storable. rewrite Hzv, Hmv.
  destruct (F64.gtb zv threshold) eqn:Hgt.
  - destruct (F64.to_int64 mv) as [x|e] eqn:Hcast.
    + by left.
    + right. split; [done|]. exists e. split; [|done].
      exists zv, mv. unfold cell. rewrite Hzr. done.
  - left. split; [done|]. by rewrite list_insert_id.
Qed.

Lemma inner_loop len : forall j0 cur i zr row,
  z !! i = Some zr -> cur !! i = Some row ->
  (j0 + len <= length zr)%nat -> (j0 + len <= length m)%nat ->
  (j0 + len <= length row)%nat ->
  (forallb (cell_ok threshold zr m) (seq j0 len) = true /\
   for_each (seq j0 len) (cell_body threshold z m (length h) i)
            (during h out file cur)
   = (Ok tt,
      during h out file
        (<[i := foldl (row_step threshold zr m) row (seq j0 len)]> cur)))
  \/
  (forallb (cell_ok threshold zr m) (seq j0 len) = false /\
   exists j e cur', fails_at threshold z m i j e /\
     untouched threshold z cur cur' /\
     for_each (seq j0 len) (cell_body threshold z m (length h) i)
              (during h out file cur)
     = (Raise e, during h out file cur')).
Proof.
  induction len as [|len IH]; intros j0 cur i zr row Hzr Hrow Hz Hm Hr; simpl.
  - left. split; [done|]. unfold ret. by rewrite list_insert_id.
  - destruct (cell_body_during cur i j0 zr row)
      as [[Hok Hrun] | [Hok (e & Hf & Hrun)]]; try done; try lia.
    + rewrite Hok. simpl andb. unfold bind. rewrite Hrun.
      destruct (IH (S j0) (<[i := row_step threshold zr m row j0]> cur) i zr
                  (row_step threshold zr m row j0))
        as [[Hall Hloop] | [Hall (j & e & cur' & Hf & Hun & Hloop)]];
        try done.
      * apply list_lookup_insert_eq. by eapply lookup_lt_Some.
      * lia.
      * lia.
      * rewrite row_step_length. lia.
      * left. split; [done|]. rewrite Hloop.
        by rewrite list_insert_insert_eq.
      * right. split; [done|]. exists j, e, cur'. split; [done|].
        split; [|done].
        eapply untouched_trans; [|exact Hun].
        apply (insert_untouched threshold z cur i zr row); [done|done|].
        intros j' Hz'. by apply row_step_untouched.
    + rewrite Hok. simpl andb. right. split; [done|].
      exists j0, e, cur. split; [done|]. split; [apply untouched_refl|].
      unfold bind. by rewrite Hrun.
Qed.

Lemma outer_loop k len : forall i0 cur,
  rectangular k z -> rectangular k cur -> length m = k ->
  (i0 + len <= length z)%nat -> (i0 + len <= length cur)%nat ->
  (forallb (fun i => match z !! i with
                     | Some zr => row_ok threshold m k zr
                     | None => true
                     end) (seq i0 len) = true /\
   for_each (seq i0 len)
            (fun i => for_range k (cell_body threshold z m (length h) i))
            (during h out file cur)
   = (Ok tt,
      during h out file (foldl (table_step threshold z m k) cur (seq i0 len))))
  \/
  (forallb (fun i => match z !! i with
                     | Some zr => row_ok threshold m k zr
                     | None => true
                     end) (seq i0 len) = false /\
   exists i j e cur', fails_at threshold z m i j e /\
     untouched threshold z cur cur' /\
     for_each (seq i0 len)
              (fun i => for_range k (cell_body threshold z m (length h) i))
              (during h out file cur)
     = (Raise e, during h out file cur')).
Proof.
  induction len as [|len IH]; intros i0 cur Hz Hcur Hm Hlz Hlc; simpl.
  - by left.
  - destruct (lookup_lt_is_Some_2 z i0) as [zr Hzr]; [lia|].
    destruct (lookup_lt_is_Some_2 cur i0) as [row Hrow]; [lia|].
    pose proof (Forall_lookup_1 _ _ _ _ Hz Hzr) as Hlzr.
    pose proof (Forall_lookup_1 _ _ _ _ Hcur Hrow) as Hlrow.
    simpl in Hlzr, Hlrow. rewrite Hzr.
    unfold bind. unfold for_range at 1 3. unfold row_ok at 1 3.
    destruct (inner_loop k 0 cur i0 zr row)
      as [[Hok Hrun] | [Hok (j & e & cur' & Hf & Hun & Hrun)]];
      try done; try lia.
    + rewrite Hok, Hrun. simpl andb.
      assert (Hstep : table_step threshold z m k cur i0
                      = <[i0 := row_loop threshold m k zr row]> cur).
      { unfold table_step. by rewrite Hzr, Hrow. }
      fold (row_loop threshold m k zr row). rewrite <- Hstep.
      destruct (IH (S i0) (table_step threshold z m k cur i0))
        as [[Hall Hloop] | [Hall (i & j & e & cur' & Hf & Hun & Hloop)]];
        try done.
      * by apply table_step_rectangular.
      * lia.
      * rewrite table_step_length. lia.
      * by left.
      * right. split; [done|]. exists i, j, e, cur'. split; [done|].
        split; [|done].
        eapply untouched_trans; [|exact Hun]. rewrite Hstep.
        apply (insert_untouched threshold z cur i0 zr row); [done|done|].
        intros j' Hz'. by apply row_fold_untouched.
    + rewrite Hok, Hrun. simpl andb. right. split; [done|].
      by exists i0, j, e, cur'.
Qed.

End Loops.

Lemma for_each_print {A} (f : A -> string) (l : list A) : forall w,
  for_each l (fun x => print (f x)) w
  = (Ok tt, World (heap w) (stdout w ++ (f <$> l)) (out_txt w)).
Proof.
  induction l as [|x l IH]; intros w; simpl.
  - unfold ret. rewrite app_nil_r. by destruct w.
  - unfold bind, print. rewrite IH. simpl. by rewrite <- app_assoc.
Qed.

(** The run of [outlier_filter] on a list that [np.array] accepts as a
    two-dimensional array.  The caller's objects are left as they are, a new
    array is allocated and the column means are printed.  Then either every
    mean that is assigned has an [int64] image, and the array is filled with
    the filtered table and returned; or the assignment fails at some cell
    and the call raises the error of the conversion, the cells that are not
    above the threshold being what they were. *)
Lemma outlier_filter_run w p o t threshold :
  heap w !! p = Some o -> o = PyList t \/ o = NdArray (Matrix t) ->
  (0 < shape0 t)%nat -> rectangular (shape1 t) t ->
  (no_overflow threshold t = true /\
   outlier_filter p threshold w
   = (Ok (length (heap w)),
      World (heap w ++ [NdArray (Matrix (filtered threshold t))])
            (stdout w ++ (F64.format_0f <$> mean_axis0 t))
            (out_txt w)))
  \/
  (no_overflow threshold t = false /\
   exists i j e cur',
     fails_at threshold (zscores t) (mean_axis0 t) i j e /\
     untouched threshold (zscores t) t cur' /\
     outlier_filter p threshold w
     = (Raise e,
        World (heap w ++ [NdArray (Matrix cur')])
              (stdout w ++ (F64.format_0f <$> mean_axis0 t))
              (out_txt w))).
Proof.
  intros Hp Ho Hn Hrect.
  assert (Hpre :
    outlier_filter p threshold w
    = match for_each (seq 0 (shape0 (zscores t)))
              (fun i => for_range (shape1 t)
                 (cell_body threshold (zscores t) (mean_axis0 t)
                    (length (heap w)) i))
              (during (heap w)
                 (stdout w ++ (F64.format_0f <$> mean_axis0 t))
                 (out_txt w) t) with
      | (Ok _, w') => (Ok (length (heap w)), w')
      | (Raise e, w') => (Raise e, w')
      end).
  { unfold outlier_filter.
    unfold bind at 1. unfold deref. rewrite Hp.
    unfold bind at 1. unfold lift at 1.
    replace (match o with PyList rows => np_array rows | NdArray a => Ok a end)
      with (Ok (Matrix t))
      by (destruct Ho as [-> | ->]; [by rewrite np_array_rectangular|done]).
    unfold bind at 1. unfold alloc. simpl heap. simpl stdout. simpl out_txt.
    unfold bind at 1. rewrite for_each_print. simpl heap. simpl stdout.
    simpl out_txt.
    unfold bind at 1. unfold for_range at 1.
    rewrite zscores_shape1 by done. reflexivity. }
  rewrite Hpre. unfold no_overflow, table_ok.
  rewrite zscores_shape1 by done.
  destruct (outer_loop threshold (zscores t) (mean_axis0 t) (heap w)
              (stdout w ++ (F64.format_0f <$> mean_axis0 t)) (out_txt w)
              (shape1 t) (shape0 (zscores t)) 0 t)
    as [[Hok Hrun] | [Hok (i & j & e & cur' & Hf & Hun & Hrun)]].
  - by apply zscores_rectangular.
  - done.
  - by apply mean_axis0_length.
  - unfold shape0. lia.
  - rewrite zscores_shape0. unfold shape0. lia.
  - left. split; [done|]. rewrite Hrun.
    unfold during, filtered. by rewrite zscores_shape1.
  - right. split; [done|]. exists i, j, e, cur'. split; [done|].
    split; [done|]. by rewrite Hrun.
Qed.

(** ** The returned table *)

Lemma valid_table_rectangular t :
  valid_table t -> (0 < shape0 t)%nat /\ rectangular (shape1 t) t.
Proof. intros (Hn & _ & Hrect & _). by split. Qed.

(** The loops run to their end exactly when no assignment fails. *)
Lemma no_overflow_spec threshold t :
  (0 < shape0 t)%nat -> rectangular (shape1 t) t ->
  no_overflow threshold t = true -> ~ overflows threshold t.
Proof.
  intros Hn Hrect Hok (i & j & e & zv & mv & Hz & Hgt & Hm & Hcast).
  unfold no_overflow, table_ok in Hok. rewrite forallb_forall in Hok.
  unfold cell in Hz.
  destruct (zscores t !! i) as [zr|] eqn:Hzr; [simpl in Hz|done].
  assert (Hi : In i (seq 0 (shape0 (zscores t)))).
  { apply in_seq. split; [lia|]. simpl. apply lookup_lt_Some in Hzr.
    unfold shape0. lia. }
  specialize (Hok i Hi). simpl in Hok. rewrite Hzr in Hok.
  unfold row_ok in Hok. rewrite forallb_forall in Hok.
  assert (Hj : In j (seq 0 (shape1 (zscores t)))).
  { apply in_seq. split; [lia|]. simpl.
    pose proof (Forall_lookup_1 _ _ _ _ (zscores_rectangular t Hrect) Hzr)
      as Hlen. simpl in Hlen.
    rewrite zscores_shape1 by done. apply lookup_lt_Some in Hz. lia. }
  specialize (Hok j Hj). unfold cell_ok, storable in Hok.
  rewrite Hz, Hm, Hgt, Hcast in Hok. done.
Qed.

(** A z-score, from the cell and the statistics of its column. *)
Lemma zscores_cell_inv t i j zv :
  cell (zscores t) i j = Some zv ->
  exists v mj sj,
    cell t i j = Some v /\ mean_axis0 t !! j = Some mj /\
    std_axis0 t !! j = Some sj /\
    zv = F64.abs (F64.div (F64.sub (F64.of_Z v) mj) sj).
Proof.
  intros H. unfold cell, zscores, sub_row, to_float64 in *.
  rewrite !list_lookup_fmap in H. destruct (t !! i) as [r|]; [|done].
  simpl in *.
  rewrite list_lookup_fmap, !lookup_zip_with, list_lookup_fmap in H.
  destruct (r !! j) as [v|]; [|done]. simpl in H.
  destruct (mean_axis0 t !! j) as [mj|]; [|done]. simpl in H.
  destruct (std_axis0 t !! j) as [sj|]; [|done]. simpl in H.
  injection H as <-. by exists v, mj, sj.
Qed.

Lemma to_int64_raises x e :
  F64.to_int64 x = Raise e ->
  e = OverflowError \/ (e = ValueError /\ x = S754_nan).
Proof.
  unfold F64.to_int64. destruct (F64.trunc x) as [v|].
  - destruct ((F64.min_int64 <=? v) && (v <=? F64.max_int64)); [done|].
    intros [= <-]. by left.
  - destruct x; intros [= <-]; auto.
Qed.

(** The z-score computed from a mean that is a NaN is a NaN, which is
    greater than nothing. *)
Lemma zscore_of_nan_mean f s threshold :
  F64.gtb (F64.abs (F64.div (F64.sub f S754_nan) s)) threshold = false.
Proof. by destruct f as [[]|[]| |[]], s as [[]|[]| |[]]. Qed.

(** The assignment of a mean fails with [OverflowError] only: a mean that
    is a NaN is never assigned. *)
Lemma fails_at_overflow threshold t i j e :
  fails_at threshold (zscores t) (mean_axis0 t) i j e -> e = OverflowError.
Proof.
  intros (zv & mv & Hz & Hgt & Hm & Hcast).
  destruct (to_int64_raises mv e Hcast) as [He | [_ ->]]; [done|].
  destruct (zscores_cell_inv t i j zv Hz) as (v & mj & sj & _ & Hm' & _ & ->).
  rewrite Hm in Hm'. injection Hm' as <-.
  by rewrite zscore_of_nan_mean in Hgt.
Qed.

(** The three outcomes of a call on a table that [np.array] accepts as a
    two-dimensional array: what is returned is the filtered table; it is
    returned when no assignment fails; [OverflowError] is raised when one
    does. *)
Lemma outlier_filter_cases w p o t threshold :
  heap w !! p = Some o -> o = PyList t \/ o = NdArray (Matrix t) ->
  (0 < shape0 t)%nat -> rectangular (shape1 t) t ->
  (forall out, returns w p threshold out ->
     out = filtered threshold t /\ ~ overflows threshold t) /\
  (~ overflows threshold t -> returns w p threshold (filtered threshold t)) /\
  (overflows threshold t -> raises w p threshold OverflowError).
Proof.
  intros Hp Ho Hn Hrect.
  destruct (outlier_filter_run w p o t threshold Hp Ho Hn Hrect)
    as [[Hok Hrun] | [Hok (i & j & e & cur' & Hf & _ & Hrun)]].
  - pose proof (no_overflow_spec threshold t Hn Hrect Hok) as Hno.
    assert (Hret : returns w p threshold (filtered threshold t)).
    { eexists _, _. split; [exact Hrun|]. simpl. by apply list_lookup_middle. }
    split; [|split; done].
    intros out (a & w' & Hrun' & Hout). rewrite Hrun in Hrun'.
    injection Hrun' as <- <-. simpl in Hout.
    rewrite list_lookup_middle in Hout by done. by injection Hout as <-.
  - assert (Hov : overflows threshold t) by by exists i, j, e.
    split; [|split; [done|]].
    + intros out (a & w' & Hrun' & _). by rewrite Hrun in Hrun'.
    + intros _. rewrite (fails_at_overflow threshold t i j e Hf) in Hrun.
      by eexists.
Qed.

Lemma returns_filtered w p t threshold :
  heap w !! p = Some (PyList t) ->
  (0 < shape0 t)%nat -> rectangular (shape1 t) t ->
  ~ overflows threshold t ->
  returns w p threshold (filtered threshold t).
Proof.
  intros Hp Hn Hrect Hno.
  by apply (outlier_filter_cases w p (PyList t) t threshold Hp
              (or_introl eq_refl) Hn Hrect).
Qed.

(** When no cell is above the threshold, nothing is assigned. *)
Lemma no_overflow_kept threshold t :
  (forall i j zv, cell (zscores t) i j = Some zv ->
     F64.gtb zv threshold = false) ->
  ~ overflows threshold t.
Proof.
  intros Hkept (i & j & e & zv & mv & Hz & Hgt & _).
  by rewrite (Hkept i j zv Hz) in Hgt.
Qed.

Lemma gtb_false_of_leb x y : F64.leb x y = true -> F64.gtb x y = false.
Proof.
  unfold F64.leb, F64.gtb, SFleb.
  by destruct (SFcompare x y) as [[]|].
Qed.

Lemma gtb_false_of_eqb x y : F64.eqb x y = true -> F64.gtb x y = false.
Proof.
  unfold F64.eqb, F64.gtb, SFeqb.
  by destruct (SFcompare x y) as [[]|].
Qed.

Lemma example_table_valid : valid_table example_table.
Proof. valid_table_tac. Qed.

(** ** The reductions along axis 0, column by column *)

Lemma fold_zip_lookup j (x : list (list F64.float)) : forall acc a,
  acc !! j = Some a -> Forall (fun r => (j < length r)%nat) x ->
  foldl (zip_with F64.add) acc x !! j
  = Some (foldl F64.add a
            ((fun r : list F64.float => default F64.zero (r !! j)) <$> x)).
Proof.
  induction x as [|r x IH]; intros acc a Hacc Hx; simpl; [done|].
  inversion Hx as [|? ? Hr Hx']; subst.
  destruct (lookup_lt_is_Some_2 r j Hr) as [y Hy].
  rewrite Hy. simpl. apply IH; [|done].
  rewrite lookup_zip_with, Hacc. simpl. by rewrite Hy.
Qed.

(** The memory of an array of one column is that column. *)
Lemma concat_column (x : list (list F64.float)) :
  rectangular 1 x ->
  concat x = (fun r : list F64.float => default F64.zero (r !! 0%nat)) <$> x.
Proof.
  induction 1 as [|r x Hr _ IH]; [done|].
  destruct r as [|y [|? ?]]; try discriminate. simpl. by rewrite IH.
Qed.

Lemma sum_axis0_lookup buffered k j (x : list (list F64.float)) :
  rectangular k x -> (j < k)%nat ->
  sum_axis0 buffered k x !! j
  = Some (column_sum buffered k
            ((fun r : list F64.float => default F64.zero (r !! j)) <$> x)).
Proof.
  intros Hx Hj. unfold sum_axis0, column_sum.
  destruct (Nat.eqb k 1) eqn:Hk.
  { apply Nat.eqb_eq in Hk. subst k. replace j with 0%nat by lia.
    simpl. by rewrite concat_column. }
  apply fold_zip_lookup.
  - by apply lookup_replicate_2.
  - eapply Forall_impl; [exact Hx|]. intros r Hr. simpl in Hr. lia.
Qed.

Lemma column_length j t : length (column j t) = shape0 t.
Proof. unfold column, shape0. apply length_fmap. Qed.

Lemma mean_axis0_lookup t j :
  rectangular (shape1 t) t -> (j < shape1 t)%nat ->
  mean_axis0 t !! j = Some (column_mean (shape1 t) (column j t)).
Proof.
  intros Hrect Hj. unfold mean_axis0.
  rewrite list_lookup_fmap, sum_axis0_lookup
    by (done || by apply to_float64_rectangular).
  simpl. unfold column_mean. rewrite column_length. do 3 f_equal.
  unfold to_float64, column. rewrite <- !list_fmap_compose.
  apply list_fmap_ext. intros i r _. simpl.
  rewrite list_lookup_fmap. by destruct (r !! j).
Qed.

Lemma std_axis0_lookup t j :
  rectangular (shape1 t) t -> (j < shape1 t)%nat ->
  std_axis0 t !! j = Some (column_std (shape1 t) (column j t)).
Proof.
  intros Hrect Hj. unfold std_axis0.
  pose proof (mean_axis0_lookup t j Hrect Hj) as Hmean.
  rewrite list_lookup_fmap, sum_axis0_lookup; [|..|done].
  2:{ unfold rectangular. apply Forall_fmap.
      eapply Forall_impl;
        [apply (sub_row_rectangular _ _ _ Hrect), mean_axis0_length, Hrect|].
      intros r Hr. simpl in *. by rewrite length_fmap. }
  simpl. unfold column_std. rewrite column_length. do 4 f_equal.
  unfold sub_row, to_float64, column. rewrite <- !list_fmap_compose.
  apply list_fmap_ext. intros i r Hr. simpl.
  pose proof (Forall_lookup_1 _ _ _ _ Hrect Hr) as Hlen. simpl in Hlen.
  destruct (lookup_lt_is_Some_2 r j) as [v Hv]; [lia|].
  rewrite list_lookup_fmap, lookup_zip_with, list_lookup_fmap, Hv. simpl.
  rewrite Hmean. simpl. done.
Qed.

Lemma column_elem t i j r v :
  t !! i = Some r -> r !! j = Some v -> v ∈ column j t.
Proof.
  intros Hr Hv. unfold column. apply list_elem_of_fmap.
  exists r. rewrite Hv. split; [done|]. by eapply list_elem_of_lookup_2.
Qed.

Lemma column_int64 t j : Forall (Forall int64) t -> Forall int64 (column j t).
Proof.
  intros H. unfold column. apply Forall_fmap.
  eapply Forall_impl; [exact H|]. intros r Hr. simpl.
  destruct (r !! j) as [v|] eqn:Hv; simpl.
  - by eapply (Forall_lookup_1 _ _ _ _ Hr).
  - unfold int64. done.
Qed.

(** A zero or a NaN divided by a zero or a NaN is a NaN, which is greater
    than nothing. *)
Lemma zscore_nan d s threshold :
  F64.is_zero d = true \/ d = S754_nan ->
  F64.is_zero s = true \/ s = S754_nan ->
  F64.gtb (F64.abs (F64.div d s)) threshold = false.
Proof.
  intros [Hd | ->] [Hs | ->].
  - by destruct d, s.
  - by destruct d.
  - done.
  - done.
Qed.

(** ** Columns of identical values *)

Lemma sub_self x : null (F64.sub x x).
Proof.
  unfold null, F64.sub. destruct x as [[]|[]| |s m e]; simpl; auto.
  rewrite Z.sub_diag. by left.
Qed.

Lemma mul_self_null d : null d -> null (F64.mul d d).
Proof. intros [-> | ->]; [by left|by right]. Qed.

Lemma add_null a b : null a -> null b -> null (F64.add a b).
Proof.
  intros [-> | ->] [-> | ->]; [by left|by right|by right|by right].
Qed.

Lemma column_sum_null buffered k qs :
  Forall null qs -> null (column_sum buffered k qs).
Proof.
  intros Hqs.
  apply (column_sum_closed null (fun _ => False)); [by left| |done].
  intros a b Ha Hb. split; [by apply add_null|]. by intros [[]|[]].
Qed.

Lemma sqrt_div_null x n :
  null x ->
  F64.is_zero (F64.sqrt (F64.div x n)) = true \/
  F64.sqrt (F64.div x n) = S754_nan.
Proof. intros [-> | ->]; [|by right]. destruct n as [[]|[]| |[] m e]; auto. Qed.

(** In a column of cells all equal to [v] whose mean is computed as [v],
    every z-score is a NaN. *)
Lemma identical_column_zscore k vs v threshold :
  Forall (fun u => u = v) vs -> column_mean k vs = F64.of_Z v ->
  F64.gtb
    (F64.abs (F64.div (F64.sub (F64.of_Z v) (column_mean k vs)) (column_std k vs)))
    threshold = false.
Proof.
  intros Hvs Hmean. apply zscore_nan.
  - rewrite Hmean. destruct (sub_self (F64.of_Z v)) as [-> | ->]; auto.
  - unfold column_std. apply sqrt_div_null, column_sum_null.
    apply Forall_fmap. eapply Forall_impl; [exact Hvs|].
    intros u ->. simpl. rewrite Hmean. apply mul_self_null, sub_self.
Qed.

Lemma identical_column_cell t threshold i j r v :
  (0 < shape0 t)%nat -> rectangular (shape1 t) t ->
  t !! i = Some r -> r !! j = Some v ->
  Forall (fun u => u = v) (column j t) ->
  column_mean (shape1 t) (column j t) = F64.of_Z v ->
  cell (filtered threshold t) i j = Some v.
Proof.
  intros Hn Hrect Hr Hv Hcol Hmean.
  assert (Hj : (j < shape1 t)%nat).
  { apply lookup_lt_Some in Hv.
    pose proof (Forall_lookup_1 _ _ _ _ Hrect Hr) as Hlen. simpl in Hlen. lia. }
  erewrite filtered_cell; eauto using zscores_cell, mean_axis0_lookup,
    std_axis0_lookup.
  unfold clamp_cell. by rewrite identical_column_zscore.
Qed.

(** A table whose cells all are kept is returned as it is. *)
Lemma cell_lookup {A} (a : list (list A)) i j v :
  cell a i j = Some v -> exists r, a !! i = Some r /\ r !! j = Some v.
Proof. unfold cell. destruct (a !! i) as [r|]; [|done]. simpl. eauto. Qed.

Lemma filtered_unchanged threshold t :
  (0 < shape0 t)%nat -> rectangular (shape1 t) t ->
  (forall i j r v, t !! i = Some r -> r !! j = Some v ->
     cell (filtered threshold t) i j = Some v) ->
  filtered threshold t = t.
Proof.
  intros Hn Hrect Hcells. apply list_eq. intros i.
  pose proof (filtered_shape0 threshold t) as Hlen. unfold shape0 in Hlen.
  pose proof (filtered_rectangular threshold t _ Hrect) as Hrect'.
  destruct (t !! i) as [r|] eqn:Hr.
  - destruct (lookup_lt_is_Some_2 (filtered threshold t) i) as [r' Hr'].
    { apply lookup_lt_Some in Hr. lia. }
    rewrite Hr'. f_equal. apply list_eq. intros j.
    pose proof (Forall_lookup_1 _ _ _ _ Hrect Hr) as Hlr.
    pose proof (Forall_lookup_1 _ _ _ _ Hrect' Hr') as Hlr'.
    simpl in Hlr, Hlr'.
    destruct (r !! j) as [v|] eqn:Hv.
    + destruct (cell_lookup _ _ _ _ (Hcells i j r v Hr Hv)) as (r'' & Hr'' & Hv').
      congruence.
    + apply lookup_ge_None. apply lookup_ge_None in Hv. lia.
  - apply lookup_ge_None. apply lookup_ge_None in Hr. lia.
Qed.

(** ** Division by one *)

Lemma add_zero_of_Z v : F64.add F64.zero (F64.of_Z v) = F64.of_Z v.
Proof.
  unfold F64.add, F64.zero. 
  destruct (F64.of_Z v) as [[]|[]| |] eqn:H; try done.
  (* the conversion of an integer is never the negative zero *)
  unfold F64.of_Z, binary_normalize in H. destruct v as [|q|q]; [done| |].
  - pose proof (int_valued_mag q 0 (or_introl (Z.le_refl 0))) as Hmag.
    destruct (binary_round_normal false q 0) as (m' & e' & Hres & _); [lia|].
    unfold F64.prec, F64.emax in H. rewrite Hres in H.
    by destruct (e' <=? 971).
  - pose proof (int_valued_mag q 0 (or_introl (Z.le_refl 0))) as Hmag.
    destruct (binary_round_normal true q 0) as (m' & e' & Hres & _); [lia|].
    unfold F64.prec, F64.emax in H. rewrite Hres in H.
    by destruct (e' <=? 971).
Qed.

Lemma div_core_one m e :
  Zpos (digits2_pos m) = 53 -> -1000 <= e ->
  SFdiv_core_binary 53 1024 (Zpos m) e (Zpos 4503599627370496) (-52)
  = (Zpos m~0, e - 1, loc_Exact).
Proof.
  intros Hdig He. unfold SFdiv_core_binary.
  change (Zdigits2 (Zpos m)) with (Zpos (digits2_pos m)).
  change (Zdigits2 (Zpos 4503599627370496)) with 53.
  rewrite Hdig, fexp64_eq.
  assert (He0 : Z.min (fexp64 (53 + e - (53 + -52))) (e - -52) = e - 1)
    by (unfold fexp64; lia).
  rewrite He0.
  assert (Hs : e - -52 - (e - 1) = 53) by lia.
  rewrite Hs. rewrite Z.shiftl_mul_pow2 by lia.
  assert (Hsplit : Zpos m * 2 ^ 53 = Zpos m~0 * Zpos 4503599627370496).
  { change (2 ^ 53) with (2 * Zpos 4503599627370496). lia. }
  rewrite Hsplit.
  destruct (Z.div_eucl (Zpos m~0 * Zpos 4503599627370496)
              (Zpos 4503599627370496)) as [q r] eqn:Hdiv.
  assert (Hq : q = Zpos m~0).
  { replace q with (Zpos m~0 * Zpos 4503599627370496 / Zpos 4503599627370496)
      by (unfold Z.div; by rewrite Hdiv).
    by rewrite Z.div_mul. }
  assert (Hr : r = 0).
  { replace r with ((Zpos m~0 * Zpos 4503599627370496)
                    mod Zpos 4503599627370496)
      by (unfold Z.modulo; by rewrite Hdiv).
    by rewrite Z.mod_mul. }
  by subst q r.
Qed.

Lemma div_one_finite s m e :
  Zpos (digits2_pos m) = 53 -> -1000 <= e <= 971 ->
  F64.div (S754_finite s m e) (S754_finite false 4503599627370496 (-52))
  = S754_finite s m e.
Proof.
  intros Hdig He. unfold F64.div, SFdiv, F64.prec, F64.emax.
  rewrite div_core_one by (done || lia).
  assert (Hd2 : Zpos (digits2_pos m~0) = 54) by (simpl; lia).
  destruct (binary_round_aux_normal (xorb s false) m~0 (e - 1) loc_Exact)
    as (m' & e' & Hres & _ & _ & Hexact); [lia|lia|].
  rewrite Hres.
  destruct Hexact as [Hm' He']; [done| |].
  - rewrite Hd2. exists (Zpos m). simpl. lia.
  - rewrite Hd2 in Hm', He'.
    change (2 ^ (54 - 53)) with 2 in Hm'.
    replace (Zpos m~0 / 2) with (Zpos m) in Hm'
      by (rewrite Pos2Z.inj_xO, Z.mul_comm, Z.div_mul; lia).
    injection Hm' as ->. replace e' with e by lia.
    replace (e <=? 971) with true by (symmetry; apply Z.leb_le; lia).
    by rewrite xorb_false_r.
Qed.

Lemma div_one_of_Z v :
  int64 v -> F64.div (F64.of_Z v) (F64.of_Z 1) = F64.of_Z v.
Proof.
  intros [Hlo Hhi]. unfold F64.min_int64, F64.max_int64 in *.
  assert (2 ^ 63 < 2 ^ 64) by done.
  change (F64.of_Z 1) with (S754_finite false 4503599627370496 (-52)).
  destruct (Z.eq_dec v 0) as [->|Hv]; [done|].
  destruct (of_Z_nonzero v Hv) as (m & e & -> & Hdig & He & _); [lia|].
  apply div_one_finite; [done|lia].
Qed.

Lemma column_sum_singleton buffered k x :
  column_sum buffered k [x]
  = F64.add F64.zero x \/
  column_sum buffered k [x] = F64.add F64.zero (F64.add F64.zero x).
Proof.
  unfold column_sum. destruct (Nat.eqb k 1); [right|by left].
  by destruct buffered.
Qed.

Lemma column_mean_singleton k v :
  int64 v -> column_mean k [v] = F64.of_Z v.
Proof.
  intros Hv.
  change (column_mean k [v])
    with (F64.div (column_sum true k [F64.of_Z v]) (F64.of_Z 1)).
  destruct (column_sum_singleton true k (F64.of_Z v)) as [-> | ->];
    rewrite !add_zero_of_Z; by apply div_one_of_Z.
Qed.

(** ** The outcome of a call on a valid table *)

Lemma returned_filtered w p t threshold out :
  heap w !! p = Some (PyList t) -> valid_table t ->
  returns w p threshold out ->
  out = filtered threshold t /\ ~ overflows threshold t.
Proof.
  intros Hp Hvalid Hout.
  destruct (valid_table_rectangular t Hvalid) as [Hn Hrect].
  by apply (outlier_filter_cases w p (PyList t) t threshold Hp
              (or_introl eq_refl) Hn Hrect).
Qed.

Lemma returns_unless_overflow_valid w p t threshold :
  heap w !! p = Some (PyList t) -> valid_table t ->
  returns_unless_overflow w p threshold t.
Proof.
  intros Hp Hvalid.
  destruct (valid_table_rectangular t Hvalid) as [Hn Hrect].
  destruct (outlier_filter_cases w p (PyList t) t threshold Hp
              (or_introl eq_refl) Hn Hrect) as (_ & Hret & Hraise).
  split; [|done]. intros Hno. eexists. by apply Hret.
Qed.

(** A cell that is to be replaced in a table that is returned: its mean has
    an [int64] image. *)
Lemma replaced_storable threshold t i j zv mv :
  ~ overflows threshold t ->
  cell (zscores t) i j = Some zv -> F64.gtb zv threshold = true ->
  mean_axis0 t !! j = Some mv ->
  exists x, F64.to_int64 mv = Ok x.
Proof.
  intros Hno Hz Hgt Hm.
  destruct (F64.to_int64 mv) as [x|e] eqn:Hcast; [by exists x|].
  destruct Hno. exists i, j, e, zv, mv. done.
Qed.

Lemma lookup_column_lt (t : table) i j r v :
  rectangular (shape1 t) t -> t !! i = Some r -> r !! j = Some v ->
  (j < shape1 t)%nat.
Proof.
  intros Hrect Hr Hv. apply lookup_lt_Some in Hv.
  pose proof (Forall_lookup_1 _ _ _ _ Hrect Hr) as Hlen. simpl in Hlen. lia.
Qed.

(** In a column of cells all equal to [v] whose mean is computed as [v], no
    z-score is above the threshold. *)
Lemma identical_column_below t threshold i j zv v :
  rectangular (shape1 t) t ->
  cell (zscores t) i j = Some zv ->
  Forall (fun u => u = v) (column j t) ->
  column_mean (shape1 t) (column j t) = F64.of_Z v ->
  F64.gtb zv threshold = false.
Proof.
  intros Hrect Hz Hcol Hmean.
  destruct (zscores_cell_inv t i j zv Hz) as (u & mj & sj & Hc & Hm & Hs & ->).
  destruct (cell_lookup _ _ _ _ Hc) as (r & Hr & Hu).
  pose proof (lookup_column_lt t i j r u Hrect Hr Hu) as Hj.
  rewrite mean_axis0_lookup in Hm by done.
  rewrite std_axis0_lookup in Hs by done.
  injection Hm as <-. injection Hs as <-.
  assert (u = v) as ->.
  { rewrite Forall_forall in Hcol. apply Hcol. by eapply column_elem. }
  by apply identical_column_zscore.
Qed.

(** * The claims *)

(** ** C1: an outlier is replaced by the cast mean of its column *)

(** C1, as the specification states it, fails when the mean of the column
    has no [int64] image.  The mean of [edge_column] is computed as 2^63; the
    last cell has a z-score above 1, and the assignment of the mean to it
    raises [OverflowError]: no table is returned. *)
Lemma outlier_mean_overflows :
  valid_table edge_column /\
  F64.gtb default_threshold F64.zero = true /\
  (exists v mj sj,
     cell edge_column 2 0 = Some v /\
     mean_axis0 edge_column !! 0%nat = Some mj /\
     std_axis0 edge_column !! 0%nat = Some sj /\
     F64.gtb (F64.abs (F64.div (F64.sub (F64.of_Z v) mj) sj))
       default_threshold = true /\
     F64.to_int64 mj = Raise OverflowError) /\
  outlier_filter 0 default_threshold (initial edge_column)
  = (Raise OverflowError, edge_after) /\
  ~ (exists out x,
       returns (initial edge_column) 0 default_threshold out /\
       cell out 2 0 = Some x).
Proof.
  split; [valid_table_tac|]. split; [reflexivity|]. split.
  { eexists _, _, _. repeat split; vm_compute; reflexivity. }
  split; [vm_compute; reflexivity|].
  intros (out & x & (a & w' & Hrun & _) & _).
  vm_compute in Hrun. discriminate.
Qed.

(** C1 (amended). For a valid table and any threshold, a cell whose
    absolute z-score [|v - mean_j| / std_j] (mean and population standard
    deviation of its column, in binary64) is strictly greater than the
    threshold holds, in the array that the call returns, the mean of its
    column converted to [int64].  The call returns unless some mean to be
    assigned has no [int64] image, in which case it raises
    [OverflowError]. *)
Theorem outlier_replaced w p t threshold i j r v mj sj :
  heap w !! p = Some (PyList t) -> valid_table t ->
  t !! i = Some r -> r !! j = Some v ->
  mean_axis0 t !! j = Some mj -> std_axis0 t !! j = Some sj ->
  F64.gtb (F64.abs (F64.div (F64.sub (F64.of_Z v) mj) sj)) threshold = true ->
  (forall out, returns w p threshold out ->
     exists x, F64.to_int64 mj = Ok x /\ cell out i j = Some x) /\
  returns_unless_overflow w p threshold t.
Proof.
  intros Hp Hvalid Hr Hv Hm Hs Hz.
  destruct (valid_table_rectangular t Hvalid) as [Hn Hrect].
  split; [|by apply returns_unless_overflow_valid].
  intros out Hout.
  destruct (returned_filtered w p t threshold out Hp Hvalid Hout) as [-> Hno].
  pose proof (zscores_cell t i j r v mj sj Hr Hv Hm Hs) as Hzc.
  destruct (replaced_storable threshold t i j _ mj Hno Hzc Hz Hm) as [x Hx].
  exists x. split; [done|].
  erewrite filtered_cell by eauto.
  unfold clamp_cell. by rewrite Hz, Hx.
Qed.

Lemma outlier_replaced_witness :
  exists out,
    returns (initial example_table) 0 default_threshold out /\
    cell out 3 0 = Some 26.
Proof.
  destruct (outlier_replaced (initial example_table) 0 example_table
              default_threshold 3 0 [100; 101] 100
              (S754_finite false 7459086882832384 (-48))
              (S754_finite false 5973058842185021 (-47)))
    as [Hcell [Hret _]].
  - reflexivity.
  - valid_table_tac.
  - reflexivity.
  - reflexivity.
  - vm_compute. reflexivity.
  - vm_compute. reflexivity.
  - vm_compute. reflexivity.
  - destruct Hret as [out Hout].
    { apply no_overflow_spec;
        [unfold shape0; simpl; lia|repeat constructor|vm_compute; reflexivity]. }
    exists out. split; [exact Hout|].
    destruct (Hcell out Hout) as (x & Hx & Hc).
    vm_compute in Hx. injection Hx as <-. exact Hc.
Defined.

(** ** C2: the cells that are not outliers are kept *)

(** C2, as the specification states it, fails when a mean has no [int64]
    image.  The first cell of [edge_column] is at the mean of the column, but
    the call raises [OverflowError] at the last cell: no table is returned
    in which the first cell would be preserved. *)
Lemma non_outlier_not_returned :
  valid_table edge_column /\
  F64.gtb default_threshold F64.zero = true /\
  (exists v mj sj,
     cell edge_column 0 0 = Some v /\
     mean_axis0 edge_column !! 0%nat = Some mj /\
     std_axis0 edge_column !! 0%nat = Some sj /\
     F64.leb (F64.abs (F64.div (F64.sub (F64.of_Z v) mj) sj))
       default_threshold = true) /\
  raises (initial edge_column) 0 default_threshold OverflowError /\
  ~ (exists out,
       returns (initial edge_column) 0 default_threshold out /\
       cell out 0 0 = cell edge_column 0 0).
Proof.
  split; [valid_table_tac|]. split; [reflexivity|]. split.
  { eexists _, _, _. repeat split; vm_compute; reflexivity. }
  split; [eexists; vm_compute; reflexivity|].
  intros (out & (a & w' & Hrun & _) & _).
  vm_compute in Hrun. discriminate.
Qed.

(** C2 (amended). For a valid table and any threshold, a cell whose
    absolute z-score is less than or equal to the threshold keeps its value
    in the array that the call returns, and so does every cell of a column
    whose standard deviation, as computed in binary64, is zero.  The call
    returns unless some mean to be assigned has no [int64] image, in which
    case it raises [OverflowError]. *)
Theorem non_outlier_preserved w p t threshold i j r v mj sj :
  heap w !! p = Some (PyList t) -> valid_table t ->
  t !! i = Some r -> r !! j = Some v ->
  mean_axis0 t !! j = Some mj -> std_axis0 t !! j = Some sj ->
  F64.leb (F64.abs (F64.div (F64.sub (F64.of_Z v) mj) sj)) threshold = true \/
  F64.is_zero sj = true ->
  (forall out, returns w p threshold out -> cell out i j = Some v) /\
  returns_unless_overflow w p threshold t.
Proof.
  intros Hp Hvalid Hr Hv Hm Hs Hz.
  destruct (valid_table_rectangular t Hvalid) as [Hn Hrect].
  split; [|by apply returns_unless_overflow_valid].
  intros out Hout.
  destruct (returned_filtered w p t threshold out Hp Hvalid Hout) as [-> _].
  erewrite filtered_cell; eauto using zscores_cell.
  unfold clamp_cell.
  destruct Hz as [Hle | Hzero]; [by rewrite (gtb_false_of_leb _ _ Hle)|].
  destruct Hvalid as (_ & _ & _ & Hint64 & Hmax).
  pose proof (lookup_column_lt t i j r v Hrect Hr Hv) as Hj.
  rewrite mean_axis0_lookup in Hm by done.
  rewrite std_axis0_lookup in Hs by done.
  injection Hm as <-. injection Hs as <-.
  rewrite zscore_nan; [done| |by left].
  apply column_std_zero; try done.
  - by apply column_int64.
  - by rewrite column_length.
  - by rewrite column_length.
  - by eapply column_elem.
Qed.

Lemma non_outlier_preserved_witness :
  (exists out,
     returns (initial example_table) 0 default_threshold out /\
     cell out 0 0 = Some 1) /\
  (exists out,
     returns (initial [[5; 1]; [5; 3]]) 0 default_threshold out /\
     cell out 1 0 = Some 5).
Proof.
  split.
  - destruct (non_outlier_preserved (initial example_table) 0 example_table
                default_threshold 0 0 [1; 100] 1
                (S754_finite false 7459086882832384 (-48))
                (S754_finite false 5973058842185021 (-47)))
      as [Hcell [Hret _]].
    + reflexivity.
    + valid_table_tac.
    + reflexivity.
    + reflexivity.
    + vm_compute. reflexivity.
    + vm_compute. reflexivity.
    + left. vm_compute. reflexivity.
    + destruct Hret as [out Hout].
      { apply no_overflow_spec;
          [unfold shape0; simpl; lia|repeat constructor
          |vm_compute; reflexivity]. }
      exists out. split; [exact Hout|]. exact (Hcell out Hout).
  - destruct (non_outlier_preserved (initial [[5; 1]; [5; 3]]) 0
                [[5; 1]; [5; 3]] default_threshold 1 0 [5; 3] 5
                (F64.of_Z 5) F64.zero)
      as [Hcell [Hret _]].
    + reflexivity.
    + valid_table_tac.
    + reflexivity.
    + reflexivity.
    + vm_compute. reflexivity.
    + vm_compute. reflexivity.
    + right. reflexivity.
    + destruct Hret as [out Hout].
      { apply no_overflow_spec;
          [unfold shape0; simpl; lia|repeat constructor
          |vm_compute; reflexivity]. }
      exists out. split; [exact Hout|]. exact (Hcell out Hout).
Defined.

(** ** C3: columns of identical values *)

(** C3, as the specification states it, fails.  The three cells are equal,
    but their sum 20819741632603314 is not a binary64 number: it is rounded
    to 20819741632603312 and the mean comes out as 6939913877534437.  Every
    cell is then at one standard deviation of that mean, which is more than
    the threshold 0.5, and is replaced by it. *)
Lemma identical_column_modified :
  valid_table big_column /\
  F64.gtb half F64.zero = true /\
  column 0 big_column = replicate 3 6939913877534438 /\
  ~ (exists out,
       returns (initial big_column) 0 half out /\
       column 0 out = column 0 big_column).
Proof.
  split; [valid_table_tac|]. split; [reflexivity|]. split; [reflexivity|].
  intros (out & (a & w' & Hrun & Hout) & Hcol).
  vm_compute in Hrun. injection Hrun as <- <-.
  vm_compute in Hout. injection Hout as <-.
  vm_compute in Hcol. discriminate.
Qed.

(** C3 (amended). A column whose cells all are equal to [v] and whose mean
    is computed as [v] is, in the array that the call returns, what it is in
    the input, whatever the threshold; the call returns unless some mean to
    be assigned, in another column, has no [int64] image.  And a table of
    exactly one row is returned as it is. *)
Theorem identical_column_kept :
  (forall w p t threshold j v,
     heap w !! p = Some (PyList t) -> valid_table t ->
     (j < shape1 t)%nat ->
     Forall (fun u => u = v) (column j t) ->
     mean_axis0 t !! j = Some (F64.of_Z v) ->
     (forall out, returns w p threshold out -> column j out = column j t) /\
     returns_unless_overflow w p threshold t) /\
  (forall w p r threshold,
     heap w !! p = Some (PyList [r]) -> valid_table [r] ->
     returns w p threshold [r]).
Proof.
  split.
  - intros w p t threshold j v Hp Hvalid Hj Hcol Hmean.
    destruct (valid_table_rectangular t Hvalid) as [Hn Hrect].
    split; [|by apply returns_unless_overflow_valid].
    intros out Hout.
    destruct (returned_filtered w p t threshold out Hp Hvalid Hout) as [-> _].
    rewrite mean_axis0_lookup in Hmean by done. injection Hmean as Hmean.
    apply list_eq. intros i. unfold column.
    rewrite !list_lookup_fmap.
    destruct (t !! i) as [r|] eqn:Hr.
    + pose proof (Forall_lookup_1 _ _ _ _ Hrect Hr) as Hlen. simpl in Hlen.
      destruct (lookup_lt_is_Some_2 r j) as [u Hu]; [lia|].
      assert (u = v) as ->.
      { rewrite Forall_forall in Hcol. apply Hcol. by eapply column_elem. }
      pose proof (identical_column_cell t threshold i j r v Hn Hrect Hr Hu
                    Hcol Hmean) as Hcell.
      destruct (cell_lookup _ _ _ _ Hcell) as (r' & -> & Hv').
      simpl. by rewrite Hu, Hv'.
    + replace (filtered threshold t !! i) with (@None (list Z)); [done|].
      symmetry. apply lookup_ge_None. apply lookup_ge_None in Hr.
      pose proof (filtered_shape0 threshold t) as Hlen. unfold shape0 in Hlen.
      lia.
  - intros w p r threshold Hp Hvalid.
    destruct (valid_table_rectangular [r] Hvalid) as [Hn Hrect].
    destruct Hvalid as (_ & _ & _ & Hint64 & _).
    assert (Hone : forall j v, r !! j = Some v ->
              Forall (fun u => u = v) (column j [r]) /\
              column_mean (shape1 [r]) (column j [r]) = F64.of_Z v).
    { intros j v Hv.
      assert (Hcolumn : column j [r] = [v]).
      { unfold column. simpl. by rewrite Hv. }
      rewrite Hcolumn. split; [by repeat constructor|].
      apply column_mean_singleton.
      inversion Hint64 as [|? ? Hr _]; subst.
      by eapply (Forall_lookup_1 _ _ _ _ Hr). }
    assert (Hsame : filtered threshold [r] = [r]).
    { apply filtered_unchanged; [done|done|].
      intros i j r0 v Hr0 Hv. destruct i as [|i]; [|done].
      injection Hr0 as <-. destruct (Hone j v Hv) as [Hcol Hmean].
      by apply (identical_column_cell [r] threshold 0 j r v). }
    assert (Hno : ~ overflows threshold [r]).
    { apply no_overflow_kept. intros i j zv Hz.
      destruct (zscores_cell_inv [r] i j zv Hz) as (v & _ & _ & Hc & _).
      destruct (cell_lookup _ _ _ _ Hc) as (r0 & Hr0 & Hv).
      destruct i as [|i]; [|done]. injection Hr0 as <-.
      destruct (Hone j v Hv) as [Hcol Hmean].
      by apply (identical_column_below [r] threshold 0 j zv v). }
    pose proof (returns_filtered w p [r] threshold Hp Hn Hrect Hno) as Hret.
    by rewrite Hsame in Hret.
Qed.

Lemma identical_column_kept_witness :
  (exists out,
     returns (initial [[5; 1]; [5; 3]]) 0 half out /\
     column 0 out = column 0 [[5; 1]; [5; 3]]) /\
  returns (initial [[7; -3]]) 0 half [[7; -3]].
Proof.
  split.
  - destruct (proj1 identical_column_kept (initial [[5; 1]; [5; 3]]) 0%nat
                [[5; 1]; [5; 3]] half 0%nat 5)
      as [Hcol [Hret _]].
    + reflexivity.
    + valid_table_tac.
    + unfold shape1. simpl. lia.
    + repeat constructor.
    + vm_compute. reflexivity.
    + destruct Hret as [out Hout].
      { apply no_overflow_spec;
          [unfold shape0; simpl; lia|repeat constructor
          |vm_compute; reflexivity]. }
      exists out. split; [exact Hout|]. exact (Hcol out Hout).
  - apply (proj2 identical_column_kept (initial [[7; -3]]) 0%nat [7; -3] half).
    + reflexivity.
    + valid_table_tac.
Defined.

(** ** C4: the shape is preserved *)

(** C4, as the specification states it, fails when a mean has no [int64]
    image: on [edge_column] the call raises [OverflowError] and returns no
    table, of whatever shape. *)
Lemma no_table_returned :
  valid_table edge_column /\
  F64.gtb default_threshold F64.zero = true /\
  raises (initial edge_column) 0 default_threshold OverflowError /\
  ~ (exists out,
       returns (initial edge_column) 0 default_threshold out /\
       shape0 out = shape0 edge_column /\ shape1 out = shape1 edge_column).
Proof.
  split; [valid_table_tac|]. split; [reflexivity|].
  split; [eexists; vm_compute; reflexivity|].
  intros (out & (a & w' & Hrun & _) & _).
  vm_compute in Hrun. discriminate.
Qed.

(** C4 (amended). For a valid table and any threshold, the array that the
    call returns has as many rows as the input and every one of its rows has
    as many cells as the rows of the input.  The call returns unless some
    mean to be assigned has no [int64] image, in which case it raises
    [OverflowError]. *)
Theorem shape_preserved w p t threshold :
  heap w !! p = Some (PyList t) -> valid_table t ->
  (forall out, returns w p threshold out ->
     shape0 out = shape0 t /\ shape1 out = shape1 t /\
     rectangular (shape1 t) out) /\
  returns_unless_overflow w p threshold t.
Proof.
  intros Hp Hvalid.
  destruct (valid_table_rectangular t Hvalid) as [Hn Hrect].
  split; [|by apply returns_unless_overflow_valid].
  intros out Hout.
  destruct (returned_filtered w p t threshold out Hp Hvalid Hout) as [-> _].
  assert (Hrect' := filtered_rectangular threshold t _ Hrect).
  split; [apply filtered_shape0|]. split; [|done].
  apply rectangular_shape1; [by rewrite filtered_shape0|done].
Qed.

(** The example table is returned with its shape; the column [edge_column],
    whose mean is computed as 2^63, is not returned. *)
Lemma shape_preserved_witness :
  (exists out,
     returns (initial example_table) 0 default_threshold out /\
     shape0 out = 4%nat /\ shape1 out = 2%nat /\ rectangular 2 out) /\
  raises (initial edge_column) 0 default_threshold OverflowError.
Proof.
  split.
  - destruct (shape_preserved (initial example_table) 0 example_table
                default_threshold) as [Hshape [Hret _]].
    + reflexivity.
    + valid_table_tac.
    + destruct Hret as [out Hout].
      { apply no_overflow_spec;
          [unfold shape0; simpl; lia|repeat constructor
          |vm_compute; reflexivity]. }
      exists out. split; [exact Hout|]. exact (Hshape out Hout).
  - destruct (shape_preserved (initial edge_column) 0 edge_column
                default_threshold) as [_ [_ Hraise]].
    + reflexivity.
    + valid_table_tac.
    + apply Hraise. exists 2%nat, 0%nat, OverflowError.
      eexists _, _. repeat split; vm_compute; reflexivity.
Defined.

(** ** C5: the comparison with the threshold is strict *)

(** C5. For a valid table, a cell whose absolute z-score is equal to the
    threshold is never replaced.  Whether the call returns or raises, the
    array that it has allocated and assigns into holds in that cell the
    value of the input; so does, in particular, the array that is returned.
    The call returns unless some mean to be assigned has no [int64] image,
    in which case it raises [OverflowError]. *)
Theorem threshold_boundary_kept w p t threshold i j r v mj sj :
  heap w !! p = Some (PyList t) -> valid_table t ->
  t !! i = Some r -> r !! j = Some v ->
  mean_axis0 t !! j = Some mj -> std_axis0 t !! j = Some sj ->
  F64.eqb (F64.abs (F64.div (F64.sub (F64.of_Z v) mj) sj)) threshold = true ->
  (forall res w', outlier_filter p threshold w = (res, w') ->
     exists cur,
       heap w' !! length (heap w) = Some (NdArray (Matrix cur)) /\
       cell cur i j = Some v) /\
  (forall out, returns w p threshold out -> cell out i j = Some v) /\
  returns_unless_overflow w p threshold t.
Proof.
  intros Hp Hvalid Hr Hv Hm Hs Hz.
  destruct (valid_table_rectangular t Hvalid) as [Hn Hrect].
  pose proof (zscores_cell t i j r v mj sj Hr Hv Hm Hs) as Hzc.
  pose proof (gtb_false_of_eqb _ _ Hz) as Hgt.
  assert (Hkept : cell (filtered threshold t) i j = Some v).
  { erewrite filtered_cell by eauto. unfold clamp_cell. by rewrite Hgt. }
  split; [|split; [|by apply returns_unless_overflow_valid]].
  - intros res w' Hrun.
    destruct (outlier_filter_run w p (PyList t) t threshold Hp
                (or_introl eq_refl) Hn Hrect)
      as [[_ Hrun'] | [_ (i' & j' & e & cur' & _ & Hun & Hrun')]];
      rewrite Hrun' in Hrun; injection Hrun as <- <-; simpl.
    + eexists. split; [by apply list_lookup_middle|done].
    + exists cur'. split; [by apply list_lookup_middle|].
      rewrite (Hun i j); [by apply cell_Some with r|].
      intros zv Hzv. rewrite Hzc in Hzv. by injection Hzv as <-.
  - intros out Hout.
    by destruct (returned_filtered w p t threshold out Hp Hvalid Hout)
      as [-> _].
Qed.

(** In the table [[0]; [2]] both cells are at one standard deviation of the
    mean: their z-score is exactly the threshold 1.  So are the cells of the
    first column of [edge_pair], where the call fails in the second
    column. *)
Lemma threshold_boundary_kept_witness :
  (exists out,
     returns (initial [[0]; [2]]) 0 default_threshold out /\
     cell out 1 0 = Some 2) /\
  (exists cur,
     heap edge_pair_after !! 1%nat = Some (NdArray (Matrix cur)) /\
     cell cur 1 0 = Some 2).
Proof.
  split.
  - destruct (threshold_boundary_kept (initial [[0]; [2]]) 0 [[0]; [2]]
                default_threshold 1 0 [2] 2 (F64.of_Z 1) (F64.of_Z 1))
      as [_ [Hcell [Hret _]]].
    + reflexivity.
    + valid_table_tac.
    + reflexivity.
    + reflexivity.
    + vm_compute. reflexivity.
    + vm_compute. reflexivity.
    + vm_compute. reflexivity.
    + destruct Hret as [out Hout].
      { apply no_overflow_spec;
          [unfold shape0; simpl; lia|repeat constructor
          |vm_compute; reflexivity]. }
      exists out. split; [exact Hout|]. exact (Hcell out Hout).
  - destruct (threshold_boundary_kept (initial edge_pair) 0 edge_pair
                default_threshold 1 0 [2; 9223372036854775807] 2
                (F64.of_Z 1) (F64.of_Z 1))
      as [Hany _].
    + reflexivity.
    + valid_table_tac.
    + reflexivity.
    + reflexivity.
    + vm_compute. reflexivity.
    + vm_compute. reflexivity.
    + vm_compute. reflexivity.
    + apply (Hany (Raise OverflowError) edge_pair_after).
      vm_compute. reflexivity.
Defined.

(** ** C6: the example table *)

(** C6, as the specification states it, fails: column 1 does not come back
    unchanged.  Its mean is 100.25 and its standard deviation about 1.48, so
    that 102 and 98 have z-scores above 1 and are replaced as well. *)
Lemma example_column1_changed :
  ~ exists out,
      returns (initial example_table) 0 default_threshold out /\
      cell out 3 0 = Some 26 /\
      forall i, cell out i 1 = cell example_table i 1.
Proof.
  intros (out & (a & w' & Hrun & Hout) & _ & Hcol).
  vm_compute in Hrun. injection Hrun as <- <-.
  vm_compute in Hout. injection Hout as <-.
  specialize (Hcol 1%nat). vm_compute in Hcol. discriminate.
Qed.

(** C6 (amended). On the example table with threshold 1 the call returns
    [[1,100],[2,100],[3,100],[26,101]]: the cell 100 of column 0 becomes 26,
    the cast of the mean 26.5, and in column 1 the cells 102 and 98 become
    100, the cast of the mean 100.25, while 100 and 101 are kept. *)
Theorem example_table_filtered w p :
  heap w !! p = Some (PyList example_table) ->
  returns w p default_threshold [[1; 100]; [2; 100]; [3; 100]; [26; 101]].
Proof.
  intros Hp.
  replace [[1; 100]; [2; 100]; [3; 100]; [26; 101]]
    with (filtered default_threshold example_table)
    by (vm_compute; reflexivity).
  apply returns_filtered; [done|..].
  - unfold shape0. simpl. lia.
  - repeat constructor.
  - apply no_overflow_spec;
      [unfold shape0; simpl; lia|repeat constructor|vm_compute; reflexivity].
Qed.

Lemma example_table_filtered_witness :
  returns (initial example_table) 0 default_threshold
    [[1; 100]; [2; 100]; [3; 100]; [26; 101]].
Proof.
  apply (example_table_filtered (initial example_table) 0). reflexivity.
Defined.

(** ** C7: a second pass may change the table again *)

(** C7. There are a valid table and a positive threshold for which filtering
    the returned array once more, with the statistics computed anew, gives a
    different table: on the example table the first pass leaves 26 in column
    0, which the second pass replaces by the new mean 8. *)
Theorem second_pass_differs :
  exists t threshold a1 w1 out1 a2 w2 out2,
    valid_table t /\ F64.gtb threshold F64.zero = true /\
    outlier_filter 0 threshold (initial t) = (Ok a1, w1) /\
    heap w1 !! a1 = Some (NdArray (Matrix out1)) /\
    outlier_filter a1 threshold w1 = (Ok a2, w2) /\
    heap w2 !! a2 = Some (NdArray (Matrix out2)) /\
    out2 <> out1.
Proof.
  exists example_table, default_threshold.
  eexists _, _, _, _, _, _.
  split; [apply example_table_valid|].
  split; [reflexivity|].
  split; [vm_compute; reflexivity|].
  split; [reflexivity|].
  split; [vm_compute; reflexivity|].
  split; [reflexivity|].
  discriminate.
Qed.

(** ** C8: rows of differing token counts *)

Lemma np_array_ragged t : ragged t -> np_array t = Raise ValueError.
Proof.
  intros (r1 & r2 & H1 & H2 & Hne).
  destruct (np_array_cases t) as [[-> _] | [Hnp | (_ & Hrect & _)]].
  - by apply elem_of_nil in H1.
  - done.
  - unfold rectangular in Hrect. rewrite Forall_forall in Hrect.
    rewrite (Hrect r1 H1), (Hrect r2 H2) in Hne. done.
Qed.

(** C8, as the specification states it, fails: the load phase does no check
    of the token counts.  On the file of the two lines ["1 2"] and ["3"] it
    succeeds and [outlier_filter] is called with the ragged list; the failure
    is the [ValueError] of [np.array], inside [outlier_filter]. *)
Lemma ragged_file_passes_load :
  parse_lines ragged_lines = Ok [[1; 2]; [3]] /\
  ragged [[1; 2]; [3]] /\
  ~ (exists e w', load (on_disk ragged_lines) = (Raise e, w')) /\
  load (on_disk ragged_lines)
  = (Ok 0%nat, loaded (on_disk ragged_lines) [[1; 2]; [3]]) /\
  outlier_filter 0 default_threshold
    (loaded (on_disk ragged_lines) [[1; 2]; [3]])
  = (Raise ValueError, loaded (on_disk ragged_lines) [[1; 2]; [3]]).
Proof.
  split; [reflexivity|]. split.
  - exists [1; 2], [3]. repeat split;
      [apply list_elem_of_here
      |apply list_elem_of_further, list_elem_of_here
      |simpl; lia].
  - split; [|split; reflexivity].
    intros (e & w' & H). vm_compute in H. discriminate.
Qed.

(** C8 (amended). For every file whose tokens all are integers and whose
    rows have differing token counts, the load phase succeeds and builds the
    ragged list; [outlier_filter] is called on it and raises [ValueError]
    when [np.array] refuses the list, before any statistics; the script ends
    with that error and the file is not rewritten. *)
Theorem ragged_file_fails_in_filter w lines t :
  out_txt w = Some lines -> parse_lines lines = Ok t -> ragged t ->
  load w = (Ok (length (heap w)), loaded w t) /\
  outlier_filter (length (heap w)) default_threshold (loaded w t)
  = (Raise ValueError, loaded w t) /\
  main w = (Raise ValueError, loaded w t).
Proof.
  intros Hfile Hparse Hragged.
  assert (Hload : load w = (Ok (length (heap w)), loaded w t)).
  { unfold load, bind, readlines. rewrite Hfile.
    destruct lines as [|l0 lines].
    - simpl in Hparse. injection Hparse as <-.
      destruct Hragged as (r1 & _ & H1 & _). by apply elem_of_nil in H1.
    - simpl getitem. unfold ret, lift. by rewrite Hparse. }
  assert (Hfilter :
    outlier_filter (length (heap w)) default_threshold (loaded w t)
    = (Raise ValueError, loaded w t)).
  { unfold outlier_filter, bind, deref, lift, loaded. simpl heap.
    rewrite list_lookup_middle by done.
    by rewrite np_array_ragged. }
  split; [done|]. split; [done|].
  unfold main, bind. by rewrite Hload, Hfilter.
Qed.

Lemma ragged_file_fails_in_filter_witness :
  load (on_disk ragged_lines)
  = (Ok 0%nat, loaded (on_disk ragged_lines) [[1; 2]; [3]]) /\
  outlier_filter 0 default_threshold
    (loaded (on_disk ragged_lines) [[1; 2]; [3]])
  = (Raise ValueError, loaded (on_disk ragged_lines) [[1; 2]; [3]]) /\
  main (on_disk ragged_lines)
  = (Raise ValueError, loaded (on_disk ragged_lines) [[1; 2]; [3]]).
Proof.
  apply (ragged_file_fails_in_filter (on_disk ragged_lines) ragged_lines
           [[1; 2]; [3]]).
  - reflexivity.
  - reflexivity.
  - exists [1; 2], [3]. repeat split;
      [apply list_elem_of_here
      |apply list_elem_of_further, list_elem_of_here
      |simpl; lia].
Defined.

(** ** C9: empty tables *)

Lemma table_fold_zero_columns threshold z m ixs : forall cur,
  foldl (table_step threshold z m 0) cur ixs = cur.
Proof.
  induction ixs as [|i ixs IH]; intros cur; simpl; [done|].
  rewrite IH. unfold table_step.
  destruct (z !! i); [|done]. destruct (cur !! i) eqn:Hrow; [|done].
  by apply list_insert_id.
Qed.

Lemma zero_columns_no_overflow threshold t :
  (0 < shape0 t)%nat -> rectangular 0 t -> ~ overflows threshold t.
Proof.
  intros Hn Hrect. apply no_overflow_kept. intros i j zv Hz.
  destruct (zscores_cell_inv t i j zv Hz) as (v & _ & _ & Hc & _).
  destruct (cell_lookup _ _ _ _ Hc) as (r & Hr & Hv).
  pose proof (Forall_lookup_1 _ _ _ _ Hrect Hr) as Hlen. simpl in Hlen.
  apply lookup_lt_Some in Hv. lia.
Qed.

Lemma filtered_zero_columns threshold t :
  (0 < shape0 t)%nat -> rectangular 0 t -> filtered threshold t = t.
Proof.
  intros Hn Hrect.
  assert (Hk : shape1 t = 0%nat) by by apply rectangular_shape1.
  unfold filtered. rewrite zscores_shape1, Hk by (by rewrite ?Hk).
  apply table_fold_zero_columns.
Qed.

(** C9, as the specification states it, fails for tables without columns:
    a file of one blank line gives the table [[[]]], which is not rejected;
    the statistics are computed (over no column) and the script succeeds. *)
Lemma zero_columns_not_rejected :
  parse_lines blank_lines = Ok [[]] /\ shape1 ([[]] : table) = 0%nat /\
  main (on_disk blank_lines)
  = (Ok tt,
     World [PyList [[]]; NdArray (Matrix [[]])] [] (Some blank_lines)) /\
  ~ (exists e w', main (on_disk blank_lines) = (Raise e, w')).
Proof.
  split; [reflexivity|]. split; [reflexivity|].
  split; [reflexivity|].
  intros (e & w' & H). vm_compute in H. discriminate.
Qed.

(** C9 (amended). A file without lines is rejected in the load phase, with
    [IndexError] and before [outlier_filter] is called.  A table with rows
    but no column is not rejected: its statistics are the empty rows and the
    call returns the table unchanged. *)
Theorem empty_table_handling :
  (forall w, out_txt w = Some [] ->
     load w = (Raise IndexError, w) /\ main w = (Raise IndexError, w)) /\
  (forall w p t threshold,
     heap w !! p = Some (PyList t) ->
     (0 < shape0 t)%nat -> rectangular 0 t ->
     mean_axis0 t = [] /\ std_axis0 t = [] /\ returns w p threshold t).
Proof.
  split.
  - intros w Hfile.
    assert (Hload : load w = (Raise IndexError, w)).
    { unfold load, bind, readlines. by rewrite Hfile. }
    split; [done|]. unfold main, bind. by rewrite Hload.
  - intros w p t threshold Hp Hn Hrect.
    assert (Hk : shape1 t = 0%nat) by by apply rectangular_shape1.
    assert (Hrect' : rectangular (shape1 t) t) by by rewrite Hk.
    split; [|split].
    + apply nil_length_inv. by rewrite mean_axis0_length.
    + apply nil_length_inv. by rewrite std_axis0_length.
    + pose proof (returns_filtered w p t threshold Hp Hn Hrect'
                    (zero_columns_no_overflow threshold t Hn Hrect)) as Hret.
      by rewrite filtered_zero_columns in Hret.
Qed.

Lemma empty_table_handling_witness :
  (load (on_disk []) = (Raise IndexError, on_disk []) /\
   main (on_disk []) = (Raise IndexError, on_disk [])) /\
  (mean_axis0 [[]; []] = [] /\ std_axis0 [[]; []] = [] /\
   returns (initial [[]; []]) 0 default_threshold [[]; []]).
Proof.
  split.
  - apply (proj1 empty_table_handling (on_disk [])). reflexivity.
  - apply (proj2 empty_table_handling (initial [[]; []]) 0%nat [[]; []]
             default_threshold).
    + reflexivity.
    + unfold shape0. simpl. lia.
    + repeat constructor.
Defined.

(** ** C10: the caller's list is not changed *)

(** C10. Whatever the list of rows and the threshold, and whether the call
    returns or raises, every object of the caller (its list of rows among
    them) is after the call what it was before; a returned array is a new
    object, at a location that was not in use before the call. *)
Theorem caller_table_untouched w p t threshold r w' :
  heap w !! p = Some (PyList t) ->
  outlier_filter p threshold w = (r, w') ->
  heap w' !! p = Some (PyList t) /\
  (forall q o, heap w !! q = Some o -> heap w' !! q = Some o) /\
  (forall a, r = Ok a ->
     heap w !! a = None /\ a <> p /\
     exists arr, heap w' !! a = Some (NdArray arr)).
Proof.
  intros Hp Hrun.
  assert (Hframe : forall x q o,
            heap w !! q = Some o -> (heap w ++ [x]) !! q = Some o).
  { intros. by apply lookup_app_l_Some. }
  assert (Hfresh : heap w !! length (heap w) = None).
  { by apply lookup_ge_None. }
  assert (Hne : length (heap w) <> p).
  { intros <-. by rewrite Hfresh in Hp. }
  destruct (np_array_cases t) as [[-> Hnp] | [Hnp | (Hn & Hrect & Hnp)]].
  - unfold outlier_filter, bind, deref, lift, alloc, raise in Hrun.
    rewrite Hp in Hrun. simpl in Hrun. injection Hrun as <- <-. simpl.
    split; [by apply Hframe|]. split; [by apply Hframe|]. discriminate.
  - unfold outlier_filter, bind, deref, lift in Hrun.
    rewrite Hp, Hnp in Hrun. injection Hrun as <- <-.
    split; [done|]. split; [done|]. discriminate.
  - destruct (outlier_filter_run w p (PyList t) t threshold Hp
                (or_introl eq_refl) Hn Hrect)
      as [[_ Hrun'] | [_ (i & j & e & cur' & _ & _ & Hrun')]];
      rewrite Hrun' in Hrun; injection Hrun as <- <-; simpl.
    + split; [by apply Hframe|]. split; [by apply Hframe|].
      intros a [= <-]. split; [done|]. split; [done|].
      eexists. by apply list_lookup_middle.
    + split; [by apply Hframe|]. split; [by apply Hframe|]. discriminate.
Qed.

Lemma caller_table_untouched_witness :
  heap example_after !! 0%nat = Some (PyList example_table) /\
  (forall q o,
     heap (initial example_table) !! q = Some o ->
     heap example_after !! q = Some o) /\
  (forall a, Ok 1%nat = Ok a ->
     heap (initial example_table) !! a = None /\ a <> 0%nat /\
     exists arr, heap example_after !! a = Some (NdArray arr)).
Proof.
  apply (caller_table_untouched (initial example_table) 0 example_table
           default_threshold (Ok 1%nat) example_after).
  - reflexivity.
  - vm_compute. reflexivity.
Defined.

(** * Further properties of the program *)

(** ** Every cell of the result *)

Lemma filtered_cell_column threshold t i j r v :
  (0 < shape0 t)%nat -> rectangular (shape1 t) t ->
  t !! i = Some r -> r !! j = Some v ->
  cell (filtered threshold t) i j
  = Some (clamp_cell threshold (column_zscore (shape1 t) (column j t) v)
            (column_mean (shape1 t) (column j t)) v).
Proof.
  intros Hn Hrect Hr Hv.
  pose proof (lookup_column_lt t i j r v Hrect Hr Hv) as Hj.
  erewrite filtered_cell; eauto using zscores_cell, mean_axis0_lookup,
    std_axis0_lookup.
Qed.

Lemma zscores_cell_column t i j r v :
  rectangular (shape1 t) t -> t !! i = Some r -> r !! j = Some v ->
  cell (zscores t) i j = Some (column_zscore (shape1 t) (column j t) v).
Proof.
  intros Hrect Hr Hv.
  pose proof (lookup_column_lt t i j r v Hrect Hr Hv) as Hj.
  eauto using zscores_cell, mean_axis0_lookup, std_axis0_lookup.
Qed.

(** X1. For a valid table and any threshold, every cell of the array that
    the call returns is the converted mean of its column if the z-score of
    the input cell is greater than the threshold, and the input cell in
    every other case, a z-score that is a NaN included: nothing else is ever
    written.  The call returns unless some mean to be assigned has no
    [int64] image, in which case it raises [OverflowError]. *)
Theorem every_cell_characterised w p t threshold i j r v :
  heap w !! p = Some (PyList t) -> valid_table t ->
  t !! i = Some r -> r !! j = Some v ->
  (forall out, returns w p threshold out ->
     if F64.gtb (column_zscore (shape1 t) (column j t) v) threshold
     then exists x,
            F64.to_int64 (column_mean (shape1 t) (column j t)) = Ok x /\
            cell out i j = Some x
     else cell out i j = Some v) /\
  returns_unless_overflow w p threshold t.
Proof.
  intros Hp Hvalid Hr Hv.
  destruct (valid_table_rectangular t Hvalid) as [Hn Hrect].
  split; [|by apply returns_unless_overflow_valid].
  intros out Hout.
  destruct (returned_filtered w p t threshold out Hp Hvalid Hout) as [-> Hno].
  pose proof (lookup_column_lt t i j r v Hrect Hr Hv) as Hj.
  rewrite (filtered_cell_column threshold t i j r v) by done.
  unfold clamp_cell.
  destruct (F64.gtb (column_zscore (shape1 t) (column j t) v) threshold)
    eqn:Hgt; [|done].
  destruct (replaced_storable threshold t i j _
              (column_mean (shape1 t) (column j t)) Hno
              (zscores_cell_column t i j r v Hrect Hr Hv) Hgt
              (mean_axis0_lookup t j Hrect Hj)) as [x Hx].
  exists x. by rewrite Hx.
Qed.

Lemma every_cell_characterised_witness :
  exists out,
    returns (initial example_table) 0 default_threshold out /\
    cell out 2 1 = Some 100.
Proof.
  destruct (every_cell_characterised (initial example_table) 0 example_table
              default_threshold 2 1 [3; 98] 98) as [Hcell [Hret _]].
  - reflexivity.
  - valid_table_tac.
  - reflexivity.
  - reflexivity.
  - destruct Hret as [out Hout].
    { apply no_overflow_spec;
        [unfold shape0; simpl; lia|repeat constructor|vm_compute; reflexivity]. }
    exists out. split; [exact Hout|].
    pose proof (Hcell out Hout) as Hc.
    replace (F64.gtb (column_zscore (shape1 example_table)
                        (column 1 example_table) 98) default_threshold)
      with true in Hc by (vm_compute; reflexivity).
    destruct Hc as (x & Hx & Hc). vm_compute in Hx. injection Hx as <-.
    exact Hc.
Defined.

(** ** The columns of a table of several columns *)

Lemma column_zscore_wide k1 k2 vs v :
  (2 <= k1)%nat -> (2 <= k2)%nat ->
  column_zscore k1 vs v = column_zscore k2 vs v /\
  column_mean k1 vs = column_mean k2 vs.
Proof.
  intros H1 H2. unfold column_zscore, column_std, column_mean, column_sum.
  replace (Nat.eqb k1 1) with false by (symmetry; apply Nat.eqb_neq; lia).
  replace (Nat.eqb k2 1) with false by (symmetry; apply Nat.eqb_neq; lia).
  done.
Qed.

(** X2. In tables of two columns or more the result in a column depends on
    that column alone: two such valid tables that agree on a column give
    returned arrays that agree on it, whatever their other columns hold.
    It is not so for a column that stands alone: the sums of an array of one
    column are added in another order, and the nine cells of [nine_alone]
    are not filtered as they are beside a second column. *)
Theorem column_independent :
  (forall w1 p1 t1 w2 p2 t2 threshold j1 j2 out1 out2,
     heap w1 !! p1 = Some (PyList t1) -> valid_table t1 ->
     heap w2 !! p2 = Some (PyList t2) -> valid_table t2 ->
     (j1 < shape1 t1)%nat -> (j2 < shape1 t2)%nat ->
     (2 <= shape1 t1)%nat -> (2 <= shape1 t2)%nat ->
     column j1 t1 = column j2 t2 ->
     returns w1 p1 threshold out1 -> returns w2 p2 threshold out2 ->
     column j1 out1 = column j2 out2) /\
  (column 0 nine_alone = column 0 nine_beside /\
   returns (initial nine_alone) 0 default_threshold
     [[2]; [4]; [3]; [3]; [3]; [4]; [2]; [4]; [3]] /\
   returns (initial nine_beside) 0 default_threshold
     [[3; 0]; [4; 0]; [3; 0]; [3; 0]; [3; 0]; [4; 0]; [3; 0]; [4; 0];
      [3; 0]]).
Proof.
  split.
  - intros w1 p1 t1 w2 p2 t2 threshold j1 j2 out1 out2
      Hp1 Hvalid1 Hp2 Hvalid2 Hj1 Hj2 Hk1 Hk2 Hcol Hout1 Hout2.
    destruct (valid_table_rectangular t1 Hvalid1) as [Hn1 Hrect1].
    destruct (valid_table_rectangular t2 Hvalid2) as [Hn2 Hrect2].
    destruct (returned_filtered w1 p1 t1 threshold out1 Hp1 Hvalid1 Hout1)
      as [-> _].
    destruct (returned_filtered w2 p2 t2 threshold out2 Hp2 Hvalid2 Hout2)
      as [-> _].
    assert (Hlen : length t1 = length t2).
    { pose proof (column_length j1 t1). pose proof (column_length j2 t2).
      unfold shape0 in *. congruence. }
    pose proof (filtered_shape0 threshold t1) as Hl1.
    pose proof (filtered_shape0 threshold t2) as Hl2.
    unfold shape0 in Hl1, Hl2.
    apply list_eq. intros i. unfold column at 1 2. rewrite !list_lookup_fmap.
    destruct (t1 !! i) as [r1|] eqn:Hr1.
    + destruct (lookup_lt_is_Some_2 t2 i) as [r2 Hr2].
      { apply lookup_lt_Some in Hr1. lia. }
      pose proof (Forall_lookup_1 _ _ _ _ Hrect1 Hr1) as Hlr1.
      pose proof (Forall_lookup_1 _ _ _ _ Hrect2 Hr2) as Hlr2.
      simpl in Hlr1, Hlr2.
      destruct (lookup_lt_is_Some_2 r1 j1) as [v1 Hv1]; [lia|].
      destruct (lookup_lt_is_Some_2 r2 j2) as [v2 Hv2]; [lia|].
      assert (v1 = v2) as <-.
      { assert (Hi : column j1 t1 !! i = column j2 t2 !! i) by by rewrite Hcol.
        unfold column in Hi. rewrite !list_lookup_fmap, Hr1, Hr2 in Hi.
        simpl in Hi. rewrite Hv1, Hv2 in Hi. simpl in Hi. congruence. }
      pose proof (filtered_cell_column threshold t1 i j1 r1 v1 Hn1 Hrect1
                    Hr1 Hv1) as Hc1.
      pose proof (filtered_cell_column threshold t2 i j2 r2 v1 Hn2 Hrect2
                    Hr2 Hv2) as Hc2.
      rewrite <- Hcol in Hc2.
      destruct (column_zscore_wide (shape1 t1) (shape1 t2) (column j1 t1) v1
                  Hk1 Hk2) as [Hz Hm].
      rewrite <- Hz, <- Hm in Hc2.
      destruct (cell_lookup _ _ _ _ Hc1) as (r1' & -> & Hv1').
      destruct (cell_lookup _ _ _ _ Hc2) as (r2' & -> & Hv2').
      simpl. by rewrite Hv1', Hv2'.
    + replace (filtered threshold t1 !! i) with (@None (list Z))
        by (symmetry; apply lookup_ge_None; apply lookup_ge_None in Hr1; lia).
      replace (filtered threshold t2 !! i) with (@None (list Z))
        by (symmetry; apply lookup_ge_None; apply lookup_ge_None in Hr1; lia).
      done.
  - split; [reflexivity|]. split.
    + eexists _, _. split; [vm_compute; reflexivity|reflexivity].
    + eexists _, _. split; [vm_compute; reflexivity|reflexivity].
Qed.

Lemma column_independent_witness :
  column 0 [[1; 100]; [2; 100]; [3; 100]; [26; 101]]
  = column 1 [[7; 1]; [7; 2]; [7; 3]; [7; 26]].
Proof.
  apply (proj1 column_independent (initial example_table) 0%nat example_table
           (initial [[7; 1]; [7; 2]; [7; 3]; [7; 100]]) 0%nat
           [[7; 1]; [7; 2]; [7; 3]; [7; 100]] default_threshold 0%nat 1%nat).
  - reflexivity.
  - valid_table_tac.
  - reflexivity.
  - valid_table_tac.
  - unfold shape1. simpl. lia.
  - unfold shape1. simpl. lia.
  - unfold shape1. simpl. lia.
  - unfold shape1. simpl. lia.
  - reflexivity.
  - eexists _, _. split; [vm_compute; reflexivity|reflexivity].
  - eexists _, _. split; [vm_compute; reflexivity|reflexivity].
Defined.

(** ** Valid tables stay valid *)

Lemma to_int64_range x v : F64.to_int64 x = Ok v -> int64 v.
Proof.
  unfold F64.to_int64, int64.
  destruct (F64.trunc x) as [u|]; [|by destruct x].
  destruct ((F64.min_int64 <=? u) && (u <=? F64.max_int64)) eqn:Hin; [|done].
  intros [= <-].
  apply andb_true_iff in Hin as [Hlo Hhi].
  apply Z.leb_le in Hlo. apply Z.leb_le in Hhi. done.
Qed.

(** X3. The array that the call returns for a valid table is a valid table
    again: as many rows and columns, and every cell an [int64], the replaced
    ones included.  So the result can be filtered once more. *)
Theorem valid_table_preserved w p t threshold :
  heap w !! p = Some (PyList t) -> valid_table t ->
  (forall out, returns w p threshold out -> valid_table out) /\
  returns_unless_overflow w p threshold t.
Proof.
  intros Hp Hvalid.
  destruct (valid_table_rectangular t Hvalid) as [Hn Hrect].
  split; [|by apply returns_unless_overflow_valid].
  intros out Hout.
  destruct (returned_filtered w p t threshold out Hp Hvalid Hout) as [-> _].
  destruct Hvalid as (_ & Hk & _ & Hint64 & Hmax).
  pose proof (filtered_shape0 threshold t) as Hl.
  pose proof (filtered_rectangular threshold t _ Hrect) as Hrect'.
  assert (Hk' : shape1 (filtered threshold t) = shape1 t).
  { apply rectangular_shape1; [by rewrite Hl|done]. }
  unfold valid_table. rewrite Hl, Hk'.
  split; [done|]. split; [done|]. split; [done|]. split; [|done].
  apply Forall_lookup. intros i r' Hr'. apply Forall_lookup. intros j x Hx.
  destruct (lookup_lt_is_Some_2 t i) as [r Hr].
  { apply lookup_lt_Some in Hr'. unfold shape0 in Hl. lia. }
  pose proof (Forall_lookup_1 _ _ _ _ Hrect Hr) as Hlr.
  pose proof (Forall_lookup_1 _ _ _ _ Hrect' Hr') as Hlr'.
  simpl in Hlr, Hlr'.
  destruct (lookup_lt_is_Some_2 r j) as [v Hv].
  { apply lookup_lt_Some in Hx. lia. }
  pose proof (filtered_cell_column threshold t i j r v Hn Hrect Hr Hv) as Hc.
  unfold cell in Hc. rewrite Hr' in Hc. simpl in Hc. rewrite Hx in Hc.
  injection Hc as ->. unfold clamp_cell.
  assert (Hv64 : int64 v).
  { eapply (Forall_lookup_1 _ _ _ _ (Forall_lookup_1 _ _ _ _ Hint64 Hr)), Hv. }
  destruct (F64.gtb _ _); [|done].
  destruct (F64.to_int64 _) as [y|e] eqn:Hcast; [|done].
  by eapply to_int64_range.
Qed.

Lemma valid_table_preserved_witness :
  exists out,
    returns (initial example_table) 0 default_threshold out /\
    valid_table out.
Proof.
  destruct (valid_table_preserved (initial example_table) 0 example_table
              default_threshold) as [Hvalid [Hret _]].
  - reflexivity.
  - valid_table_tac.
  - destruct Hret as [out Hout].
    { apply no_overflow_spec;
        [unfold shape0; simpl; lia|repeat constructor|vm_compute; reflexivity]. }
    exists out. split; [exact Hout|]. exact (Hvalid out Hout).
Defined.

(** ** Thresholds that nothing exceeds *)

Lemma gtb_nan_or_infinity x threshold :
  threshold = S754_nan \/ threshold = S754_infinity false ->
  F64.gtb x threshold = false.
Proof. intros [-> | ->]; by destruct x as [[]|[]| |[]]. Qed.

(** X4. With a threshold that is a NaN or the positive infinity the
    comparison [z[i, j] > threshold] is never true: the returned array holds
    the input table, cell for cell. *)
Theorem unreachable_threshold_keeps_all w p t threshold :
  heap w !! p = Some (PyList t) -> valid_table t ->
  threshold = S754_nan \/ threshold = S754_infinity false ->
  returns w p threshold t.
Proof.
  intros Hp Hvalid Hthr.
  destruct (valid_table_rectangular t Hvalid) as [Hn Hrect].
  assert (Hsame : filtered threshold t = t).
  { apply filtered_unchanged; [done|done|].
    intros i j r v Hr Hv. erewrite filtered_cell_column by done.
    unfold clamp_cell. by rewrite gtb_nan_or_infinity. }
  assert (Hno : ~ overflows threshold t).
  { apply no_overflow_kept. intros i j zv _. by apply gtb_nan_or_infinity. }
  pose proof (returns_filtered w p t threshold Hp Hn Hrect Hno) as Hret.
  by rewrite Hsame in Hret.
Qed.

Lemma unreachable_threshold_keeps_all_witness :
  returns (initial example_table) 0 (S754_infinity false) example_table.
Proof.
  apply (unreachable_threshold_keeps_all (initial example_table) 0
           example_table (S754_infinity false)).
  - reflexivity.
  - valid_table_tac.
  - right. reflexivity.
Defined.


(** ** What is printed *)

(** X5. A call on a valid table prints one line for every column, in the
    order of the columns: the mean of the column, formatted without
    decimals.  It prints them whether the call returns or raises and whether
    or not a cell is replaced, and it leaves the file alone. *)
Theorem column_means_printed w p t threshold r w' :
  heap w !! p = Some (PyList t) -> valid_table t ->
  outlier_filter p threshold w = (r, w') ->
  stdout w'
  = stdout w ++ ((fun j => F64.format_0f
                             (column_mean (shape1 t) (column j t)))
                   <$> seq 0 (shape1 t)) /\
  out_txt w' = out_txt w.
Proof.
  intros Hp Hvalid Hrun.
  destruct (valid_table_rectangular t Hvalid) as [Hn Hrect].
  assert (Hmeans :
    F64.format_0f <$> mean_axis0 t
    = (fun j => F64.format_0f (column_mean (shape1 t) (column j t)))
        <$> seq 0 (shape1 t)).
  { apply list_eq. intros j. rewrite !list_lookup_fmap.
    destruct (decide (j < shape1 t)%nat) as [Hj|Hj].
    - rewrite mean_axis0_lookup, lookup_seq_lt by done. done.
    - rewrite lookup_seq_ge by lia.
      replace (mean_axis0 t !! j) with (@None F64.float); [done|].
      symmetry. apply lookup_ge_None. rewrite mean_axis0_length by done. lia. }
  destruct (outlier_filter_run w p (PyList t) t threshold Hp
              (or_introl eq_refl) Hn Hrect)
    as [[_ Hrun'] | [_ (i & j & e & cur' & _ & _ & Hrun')]];
    rewrite Hrun' in Hrun; injection Hrun as <- <-; simpl;
    by rewrite Hmeans.
Qed.

(** The means are printed for the example table, and also for the column
    whose mean cannot be assigned. *)
Lemma column_means_printed_witness :
  (stdout example_after = stdout (initial example_table) ++ ["26"; "100"] /\
   out_txt example_after = out_txt (initial example_table)) /\
  (stdout edge_after = stdout (initial edge_column) ++ ["9223372036854775808"] /\
   out_txt edge_after = out_txt (initial edge_column)).
Proof.
  split.
  - apply (column_means_printed (initial example_table) 0 example_table
             default_threshold (Ok 1%nat) example_after).
    + reflexivity.
    + valid_table_tac.
    + vm_compute. reflexivity.
  - apply (column_means_printed (initial edge_column) 0 edge_column
             default_threshold (Raise OverflowError) edge_after).
    + reflexivity.
    + valid_table_tac.
    + vm_compute. reflexivity.
Defined.

(** ** When the call succeeds *)

Lemma np_array_ragged_inv t : np_array t = Raise ValueError -> ragged t.
Proof.
  destruct t as [|r rest]; [done|]. simpl.
  destruct (forallb _ rest) eqn:Hall; [done|]. intros _.
  induction rest as [|r' rest IH]; [done|]. simpl in Hall.
  destruct (Nat.eqb (length r') (length r)) eqn:Heq.
  - simpl in Hall. destruct (IH Hall) as (r1 & r2 & H1 & H2 & Hne).
    exists r1, r2. split; [|split; [|done]].
    + inversion H1; subst; [apply list_elem_of_here|].
      by do 2 apply list_elem_of_further.
    + inversion H2; subst; [apply list_elem_of_here|].
      by do 2 apply list_elem_of_further.
  - exists r', r. split; [apply list_elem_of_further, list_elem_of_here|].
    split; [apply list_elem_of_here|]. by apply Nat.eqb_neq.
Qed.


(** X6. On a list of rows of [int64] cells the call returns an array exactly
    when the list is not empty, its rows have one length and no assignment
    fails; it raises [TypeError] exactly on the empty list, [ValueError]
    exactly on rows of differing lengths, and [OverflowError] exactly when
    the list is accepted and an assignment fails. *)
Theorem outlier_filter_outcome w p t threshold :
  heap w !! p = Some (PyList t) -> Forall (Forall int64) t ->
  ((exists out, returns w p threshold out)
     <-> t <> [] /\ ~ ragged t /\ ~ overflows threshold t) /\
  (raises w p threshold TypeError <-> t = []) /\
  (raises w p threshold ValueError <-> ragged t) /\
  (raises w p threshold OverflowError
     <-> t <> [] /\ ~ ragged t /\ overflows threshold t).
Proof.
  intros Hp _.
  destruct (np_array_cases t) as [[-> Hnp] | [Hnp | (Hn & Hrect & Hnp)]].
  - assert (Hrun : outlier_filter p threshold w
              = (Raise TypeError,
                 World (heap w ++ [NdArray Empty1]) (stdout w) (out_txt w))).
    { unfold outlier_filter, bind, deref, lift, alloc, raise.
      by rewrite Hp. }
    assert (Hnr : ~ ragged []).
    { intros (r1 & _ & H1 & _). by apply elem_of_nil in H1. }
    unfold returns, raises. rewrite Hrun.
    split; [|split; [|split]]; split.
    + by intros (out & a & w' & [=] & _).
    + by intros (Hne & _).
    + done.
    + intros _. by eexists.
    + by intros (w' & [=]).
    + done.
    + by intros (w' & [=]).
    + by intros (Hne & _).
  - assert (Hrun : outlier_filter p threshold w = (Raise ValueError, w)).
    { unfold outlier_filter, bind, deref, lift. by rewrite Hp, Hnp. }
    pose proof (np_array_ragged_inv t Hnp) as Hragged.
    assert (Hne : t <> []).
    { intros ->. destruct Hragged as (r1 & _ & H1 & _).
      by apply elem_of_nil in H1. }
    unfold returns, raises. rewrite Hrun.
    split; [|split; [|split]]; split.
    + by intros (out & a & w' & [=] & _).
    + by intros (_ & Hnr & _).
    + by intros (w' & [=]).
    + done.
    + done.
    + intros _. by eexists.
    + by intros (w' & [=]).
    + by intros (_ & Hnr & _).
  - assert (Hne : t <> []).
    { intros ->. unfold shape0 in Hn. simpl in Hn. lia. }
    assert (Hnr : ~ ragged t).
    { intros Hr. apply np_array_ragged in Hr. congruence. }
    destruct (outlier_filter_run w p (PyList t) t threshold Hp
                (or_introl eq_refl) Hn Hrect)
      as [[Hok Hrun] | [Hok (i & j & e & cur' & Hf & _ & Hrun)]].
    + pose proof (no_overflow_spec threshold t Hn Hrect Hok) as Hno.
      unfold returns, raises. rewrite Hrun.
      split; [|split; [|split]]; split.
      * done.
      * intros _. eexists _, _, _. split; [done|]. simpl.
        by apply list_lookup_middle.
      * by intros (w' & [=]).
      * done.
      * by intros (w' & [=]).
      * done.
      * by intros (w' & [=]).
      * by intros (_ & _ & Hov).
    + assert (Hov : overflows threshold t) by by exists i, j, e.
      rewrite (fails_at_overflow threshold t i j e Hf) in Hrun.
      unfold returns, raises. rewrite Hrun.
      split; [|split; [|split]]; split.
      * by intros (out & a & w' & [=] & _).
      * by intros (_ & _ & Hno).
      * by intros (w' & [=]).
      * done.
      * by intros (w' & [=]).
      * done.
      * done.
      * intros _. by eexists.
Qed.

Lemma outlier_filter_outcome_witness :
  ((exists out, returns (initial edge_column) 0 default_threshold out)
     <-> edge_column <> [] /\ ~ ragged edge_column /\
         ~ overflows default_threshold edge_column) /\
  (raises (initial edge_column) 0 default_threshold TypeError
     <-> edge_column = []) /\
  (raises (initial edge_column) 0 default_threshold ValueError
     <-> ragged edge_column) /\
  (raises (initial edge_column) 0 default_threshold OverflowError
     <-> edge_column <> [] /\ ~ ragged edge_column /\
         overflows default_threshold edge_column).
Proof.
  apply (outlier_filter_outcome (initial edge_column) 0 edge_column
           default_threshold).
  - reflexivity.
  - repeat constructor; vm_compute; congruence.
Defined.

(** ** An array as argument *)



(** ** Reading back what was written *)

Lemma digit_pretty_char d :
  (d < 10)%N -> digit (pretty_N_char d) = Some (Z.of_N d).
Proof.
  intros Hd.
  assert (d = 0 \/ d = 1 \/ d = 2 \/ d = 3 \/ d = 4 \/ d = 5 \/ d = 6
          \/ d = 7 \/ d = 8 \/ d = 9)%N as Hcases by lia.
  repeat (destruct Hcases as [-> | Hcases]; [reflexivity|]).
  by subst.
Qed.

Lemma is_space_pretty_char d : is_space (pretty_N_char d) = false.
Proof. unfold pretty_N_char. by repeat case_match. Qed.

Lemma digits_cons c d acc b s :
  digit c = Some d -> digits acc b (String c s) = digits (10 * acc + d) true s.
Proof. intros H. simpl. by rewrite H. Qed.

Lemma digits_pretty_go n :
  (0 < n)%N ->
  exists k, 0 <= k /\ forall acc b s,
    digits acc b (pretty_N_go n s) = digits (acc * 10 ^ k + Z.of_N n) true s.
Proof.
  induction (N.lt_wf_0 n) as [n _ IH]. intros Hn.
  assert (Hmod : (n `mod` 10 < 10)%N) by (apply N.mod_lt; lia).
  pose proof (digit_pretty_char _ Hmod) as Hdigit.
  assert (Hsplit : Z.of_N n = 10 * Z.of_N (n `div` 10) + Z.of_N (n `mod` 10)).
  { pose proof (N.div_mod n 10 ltac:(lia)) as Hdm.
    apply (f_equal Z.of_N) in Hdm.
    rewrite N2Z.inj_add, N2Z.inj_mul in Hdm. exact Hdm. }
  destruct (decide (n < 10)%N) as [Hsmall|Hbig].
  - exists 1. split; [lia|]. intros acc b s.
    rewrite pretty_N_go_step, N.div_small, pretty_N_go_0 by done.
    rewrite (digits_cons _ _ _ _ _ Hdigit). f_equal.
    rewrite N.div_small in Hsplit by done. simpl in Hsplit. lia.
  - destruct (IH (n `div` 10)%N) as (k & Hk & Hgo).
    { apply N.div_lt; lia. }
    { apply N.div_str_pos. lia. }
    exists (k + 1). split; [lia|]. intros acc b s.
    rewrite pretty_N_go_step, Hgo by done.
    rewrite (digits_cons _ _ _ _ _ Hdigit). f_equal.
    rewrite Z.pow_add_r by lia. lia.
Qed.

Lemma pretty_go_first n s :
  (0 < n)%N ->
  exists c s' d, pretty_N_go n s = String c s' /\ digit c = Some d.
Proof.
  revert s. induction (N.lt_wf_0 n) as [n _ IH]. intros s Hn.
  assert (Hmod : (n `mod` 10 < 10)%N) by (apply N.mod_lt; lia).
  rewrite pretty_N_go_step by done.
  destruct (decide (n < 10)%N) as [Hsmall|Hbig].
  - rewrite N.div_small, pretty_N_go_0 by done.
    eexists _, _, _. split; [done|]. by apply digit_pretty_char.
  - apply IH; [apply N.div_lt; lia|apply N.div_str_pos; lia].
Qed.

Lemma no_space_pretty_go n : forall s,
  no_space (pretty_N_go n s) = no_space s.
Proof.
  induction (N.lt_wf_0 n) as [n _ IH]. intros s.
  destruct (decide (0 < n)%N) as [Hn|Hn].
  - rewrite pretty_N_go_step, IH by (done || apply N.div_lt; lia).
    simpl. by rewrite is_space_pretty_char.
  - replace n with 0%N by lia. by rewrite pretty_N_go_0.
Qed.

(** A token that starts with a digit has no sign. *)
Lemma int_digit_first c s d :
  digit c = Some d ->
  int (String c s)
  = match digits 0 false (String c s) with
    | Some v => Ok v
    | None => Raise ValueError
    end.
Proof.
  destruct c as [[] [] [] [] [] [] [] []]; try discriminate; reflexivity.
Qed.

Lemma digits_pretty_positive p :
  digits 0 false (pretty_N_go (Npos p) EmptyString) = Some (Zpos p).
Proof.
  destruct (digits_pretty_go (Npos p)) as (k & _ & Hgo); [lia|].
  rewrite Hgo. simpl. done.
Qed.

(** [int] reads back the decimal notation of every integer. *)
Lemma int_pretty (v : Z) : int (pretty v) = Ok v.
Proof.
  destruct v as [|p|p].
  - reflexivity.
  - change (pretty (Zpos p)) with (pretty_N_go (Npos p) EmptyString).
    destruct (pretty_go_first (Npos p) EmptyString) as (c & s & d & Hs & Hd);
      [lia|].
    pose proof (digits_pretty_positive p) as Hdigits.
    rewrite Hs in Hdigits |- *.
    by rewrite (int_digit_first _ _ _ Hd), Hdigits.
  - change (pretty (Zneg p))
      with (String "-" (pretty_N_go (Npos p) EmptyString)).
    simpl. by rewrite digits_pretty_positive.
Qed.

Lemma no_space_pretty (v : Z) : no_space (pretty v) = true.
Proof.
  destruct v as [|p|p].
  - reflexivity.
  - change (pretty (Zpos p)) with (pretty_N_go (Npos p) EmptyString).
    by rewrite no_space_pretty_go.
  - change (pretty (Zneg p))
      with (String "-" (pretty_N_go (Npos p) EmptyString)).
    simpl. by rewrite no_space_pretty_go.
Qed.

Lemma rev_app_rev_app s1 : forall s2 s3,
  String.rev_app (String.rev_app s1 s2) s3 = String.rev_app s2 (s1 +:+ s3).
Proof.
  induction s1 as [|a s1 IH]; intros s2 s3; [done|].
  simpl. by rewrite IH.
Qed.

Lemma string_app_empty_r s : s +:+ EmptyString = s.
Proof. induction s as [|a s IH]; [done|]. simpl. unfold String.app in *. simpl. by rewrite IH. Qed.

Lemma string_rev_rev s : String.rev (String.rev s) = s.
Proof.
  unfold String.rev. rewrite rev_app_rev_app. simpl.
  apply string_app_empty_r.
Qed.

Lemma split_go_push tok : forall acc rest,
  no_space tok = true ->
  split_go (Some acc) (tok +:+ rest)
  = split_go (Some (String.rev_app tok acc)) rest.
Proof.
  induction tok as [|c tok IH]; intros acc rest Hns; [done|].
  simpl in Hns. apply andb_true_iff in Hns as [Hc Htok].
  apply negb_true_iff in Hc.
  change (String c tok +:+ rest) with (String c (tok +:+ rest)).
  simpl. rewrite Hc. by apply IH.
Qed.

Lemma split_go_token tok rest :
  tok <> EmptyString -> no_space tok = true ->
  split_go None (tok +:+ rest) = split_go (Some (String.rev tok)) rest.
Proof.
  intros Hne Hns. destruct tok as [|c tok]; [done|].
  simpl in Hns. apply andb_true_iff in Hns as [Hc Htok].
  apply negb_true_iff in Hc.
  change (String c tok +:+ rest) with (String c (tok +:+ rest)).
  simpl. rewrite Hc. by apply split_go_push.
Qed.

(** Splitting the tokens joined by one space gives the tokens back. *)
Lemma split_concat toks :
  Forall (fun tok => tok <> EmptyString /\ no_space tok = true) toks ->
  split (String.concat " " toks) = toks.
Proof.
  unfold split. induction 1 as [|tok toks [Hne Hns] Htoks IH]; [done|].
  destruct toks as [|tok' toks].
  - simpl. rewrite <- (string_app_empty_r tok) at 1.
    rewrite split_go_token by done. simpl. by rewrite string_rev_rev.
  - change (String.concat " " (tok :: tok' :: toks))
      with (tok +:+ String " " (String.concat " " (tok' :: toks))).
    rewrite split_go_token by done.
    change (split_go (Some (String.rev tok))
              (String " " (String.concat " " (tok' :: toks))))
      with ([String.rev (String.rev tok)]
              ++ split_go None (String.concat " " (tok' :: toks))).
    by rewrite string_rev_rev, IH.
Qed.

Lemma map_result_fmap {A B} (f : A -> result B) (g : B -> A) (l : list B) :
  (forall x, f (g x) = Ok x) -> map_result f (g <$> l) = Ok l.
Proof.
  intros Hfg. induction l as [|x l IH]; [done|].
  change (g <$> x :: l) with (g x :: (g <$> l)).
  change (map_result f (g x :: (g <$> l)))
    with (match f (g x) with
          | Ok y => match map_result f (g <$> l) with
                    | Ok ys => Ok (y :: ys)
                    | Raise e => Raise e
                    end
          | Raise e => Raise e
          end).
  by rewrite Hfg, IH.
Qed.

Lemma parse_line_back (r : list Z) :
  map_result int (split (String.concat " " (pretty <$> r))) = Ok r.
Proof.
  rewrite split_concat; [apply map_result_fmap, int_pretty|].
  apply Forall_fmap, Forall_forall. intros v _. simpl.
  split; [|apply no_space_pretty].
  intros Hempty. pose proof (int_pretty v) as Hint.
  rewrite Hempty in Hint. discriminate.
Qed.

(** X8. The load phase reads back what [np.savetxt] wrote: parsing the lines
    written for a table gives that table, whatever its cells and also when
    its rows are empty or of differing lengths. *)
Theorem saved_lines_parse_back (t : table) :
  parse_lines (saved_lines t) = Ok t.
Proof.
  unfold parse_lines, saved_lines.
  apply (map_result_fmap
           (fun line => map_result int (split line))
           (fun r : list Z => String.concat " " (pretty <$> r))).
  apply parse_line_back.
Qed.

(** ** The script *)

Lemma map_result_length {A B} (f : A -> result B) (l : list A) : forall l',
  map_result f l = Ok l' -> length l' = length l.
Proof.
  induction l as [|x l IH]; intros l' H; simpl in H.
  - by injection H as <-.
  - destruct (f x) as [y|e]; [|done].
    destruct (map_result f l) as [ys|e]; [|done].
    injection H as <-. simpl. f_equal. by apply IH.
Qed.

Lemma load_run w lines t :
  out_txt w = Some lines -> lines <> [] -> parse_lines lines = Ok t ->
  load w = (Ok (length (heap w)), loaded w t).
Proof.
  intros Hfile Hne Hparse. unfold load, bind, readlines. rewrite Hfile.
  destruct lines as [|l0 lines]; [done|].
  simpl getitem. unfold ret, lift. by rewrite Hparse.
Qed.

Lemma savetxt_run w a t :
  heap w !! a = Some (NdArray (Matrix t)) ->
  savetxt a w = (Ok tt, World (heap w) (stdout w) (Some (saved_lines t))).
Proof. intros Ha. unfold savetxt, bind, deref, lift. by rewrite Ha. Qed.


Lemma main_run w lines t :
  out_txt w = Some lines -> parse_lines lines = Ok t ->
  (0 < shape0 t)%nat -> rectangular (shape1 t) t ->
  ~ overflows default_threshold t ->
  main w
  = (Ok tt,
     World (heap w ++ [PyList t;
                       NdArray (Matrix (filtered default_threshold t))])
           (stdout w ++ (F64.format_0f <$> mean_axis0 t))
           (Some (saved_lines (filtered default_threshold t)))).
Proof.
  intros Hfile Hparse Hn Hrect Hno.
  assert (Hne : lines <> []).
  { intros ->. simpl in Hparse. injection Hparse as <-.
    unfold shape0 in Hn. simpl in Hn. lia. }
  unfold main. unfold bind at 1. rewrite (load_run w lines t) by done.
  unfold bind.
  assert (Hp : heap (loaded w t) !! length (heap w) = Some (PyList t))
    by by apply list_lookup_middle.
  destruct (outlier_filter_run (loaded w t) (length (heap w)) (PyList t) t
              default_threshold Hp (or_introl eq_refl) Hn Hrect)
    as [[_ Hrun] | [_ (i & j & e & cur' & Hf & _ & _)]].
  2:{ destruct Hno. by exists i, j, e. }
  rewrite Hrun.
  rewrite (savetxt_run _ _ (filtered default_threshold t))
    by (by apply list_lookup_middle).
  simpl. by rewrite <- app_assoc.
Qed.

(** X9. On a file whose lines parse to a non-empty table of [int64] cells
    with rows of one length, and when no assignment fails, the script
    succeeds: the file then holds the table filtered with the threshold 1,
    one line for every row and the cells in decimal notation, and one line
    has been printed for every column. *)
Theorem script_writes_filtered w lines t :
  out_txt w = Some lines -> parse_lines lines = Ok t ->
  (0 < shape0 t)%nat -> rectangular (shape1 t) t ->
  Forall (Forall int64) t -> ~ overflows default_threshold t ->
  exists w',
    main w = (Ok tt, w') /\
    out_txt w' = Some (saved_lines (filtered default_threshold t)) /\
    length (saved_lines (filtered default_threshold t)) = length lines /\
    stdout w' = stdout w ++ (F64.format_0f <$> mean_axis0 t).
Proof.
  intros Hfile Hparse Hn Hrect _ Hno. eexists.
  split; [by eapply main_run|].
  simpl. split; [done|]. split; [|done].
  unfold saved_lines. rewrite length_fmap.
  pose proof (filtered_shape0 default_threshold t) as Hl.
  unfold shape0 in Hl. rewrite Hl. by eapply map_result_length.
Qed.

Lemma script_writes_filtered_witness :
  exists w',
    main (on_disk ["1 100"; "2 102"; "3 98"; "100 101"]) = (Ok tt, w') /\
    out_txt w' = Some (saved_lines (filtered default_threshold example_table)) /\
    length (saved_lines (filtered default_threshold example_table))
    = length ["1 100"; "2 102"; "3 98"; "100 101"] /\
    stdout w'
    = stdout (on_disk ["1 100"; "2 102"; "3 98"; "100 101"])
      ++ (F64.format_0f <$> mean_axis0 example_table).
Proof.
  apply (script_writes_filtered (on_disk ["1 100"; "2 102"; "3 98"; "100 101"])
           ["1 100"; "2 102"; "3 98"; "100 101"] example_table).
  - reflexivity.
  - reflexivity.
  - unfold shape0. simpl. lia.
  - repeat constructor.
  - repeat constructor; vm_compute; congruence.
  - apply no_overflow_spec;
      [unfold shape0; simpl; lia|repeat constructor|vm_compute; reflexivity].
Defined.

(** X10. A run of the script that fails has not written the file: whatever
    the error, the file holds what it held before.  Nothing has been printed
    either, unless the error is the [OverflowError] of an assignment, which
    comes after the column means have been printed. *)
Theorem script_failure_writes_nothing w e w' :
  int64_file w ->
  main w = (Raise e, w') ->
  out_txt w' = out_txt w /\ (e <> OverflowError -> stdout w' = stdout w).
Proof.
  intros _ Hmain. unfold main in Hmain. unfold bind at 1 in Hmain.
  destruct (out_txt w) as [lines|] eqn:Hfile.
  2:{ unfold load, bind, readlines in Hmain. rewrite Hfile in Hmain.
      by injection Hmain as _ <-. }
  destruct lines as [|l0 lines].
  { unfold load, bind, readlines in Hmain. rewrite Hfile in Hmain.
    simpl in Hmain. injection Hmain as _ <-. by rewrite Hfile. }
  destruct (parse_lines (l0 :: lines)) as [t|e'] eqn:Hparse.
  2:{ unfold load, bind, readlines in Hmain. rewrite Hfile in Hmain.
      simpl getitem in Hmain. unfold ret, lift in Hmain.
      rewrite Hparse in Hmain. injection Hmain as _ <-. by rewrite Hfile. }
  rewrite (load_run w (l0 :: lines) t) in Hmain by done.
  unfold bind in Hmain.
  assert (Hp : heap (loaded w t) !! length (heap w) = Some (PyList t))
    by by apply list_lookup_middle.
  destruct (np_array_cases t) as [[-> Hnp] | [Hnp | (Hn & Hrect & Hnp)]].
  - unfold outlier_filter, bind, deref, lift, alloc, raise in Hmain.
    rewrite Hp in Hmain. simpl in Hmain. injection Hmain as _ <-.
    simpl. by rewrite Hfile.
  - unfold outlier_filter, bind, deref, lift in Hmain.
    rewrite Hp, Hnp in Hmain. injection Hmain as _ <-.
    simpl. by rewrite Hfile.
  - destruct (outlier_filter_run (loaded w t) (length (heap w)) (PyList t) t
                default_threshold Hp (or_introl eq_refl) Hn Hrect)
      as [[_ Hrun] | [_ (i & j & e0 & cur' & Hf & _ & Hrun)]];
      rewrite Hrun in Hmain.
    + rewrite (savetxt_run _ _ (filtered default_threshold t)) in Hmain
        by (by apply list_lookup_middle).
      discriminate.
    + injection Hmain as <- <-. simpl. split; [by rewrite Hfile|].
      intros He. destruct He. by eapply fails_at_overflow.
Qed.

Lemma script_failure_writes_nothing_witness :
  out_txt (loaded (on_disk ragged_lines) [[1; 2]; [3]])
  = out_txt (on_disk ragged_lines) /\
  (ValueError <> OverflowError ->
   stdout (loaded (on_disk ragged_lines) [[1; 2]; [3]])
   = stdout (on_disk ragged_lines)).
Proof.
  apply (script_failure_writes_nothing (on_disk ragged_lines) ValueError
           (loaded (on_disk ragged_lines) [[1; 2]; [3]])).
  - intros lines [= <-]. split; [reflexivity|].
    intros t [= <-]. repeat constructor; vm_compute; congruence.
  - vm_compute. reflexivity.
Defined.

Lemma int_raises s e : int s = Raise e -> e = ValueError.
Proof.
  unfold int.
  assert (Hnumber : forall body (k : Z -> Z),
            match digits 0 false body with
            | Some v => Ok (k v)
            | None => Raise ValueError
            end = Raise e -> e = ValueError).
  { intros body k. destruct (digits 0 false body); congruence. }
  destruct s as [|c s]; [apply Hnumber|].
  destruct c as [[] [] [] [] [] [] [] []]; apply Hnumber.
Qed.

Lemma map_result_raises {A B} (f : A -> result B) (l : list A) e0 :
  (forall x e, f x = Raise e -> e = e0) ->
  (exists x, x ∈ l /\ f x = Raise e0) ->
  map_result f l = Raise e0.
Proof.
  intros Honly (x & Hx & Hfx).
  induction l as [|y l IH]; [by apply elem_of_nil in Hx|].
  simpl. destruct (f y) as [z|e] eqn:Hfy.
  - rewrite IH; [done|]. inversion Hx; subst; [congruence|done].
  - by rewrite (Honly y e Hfy).
Qed.


(** X11. In a file of plain lines, a token that is not an integer makes the
    load phase fail with [ValueError]: [outlier_filter] is not called,
    nothing is allocated, printed or written. *)
Theorem bad_token_fails_in_load w lines line tok :
  out_txt w = Some lines -> forallb plain lines = true ->
  line ∈ lines -> tok ∈ split line ->
  int tok = Raise ValueError ->
  load w = (Raise ValueError, w) /\ main w = (Raise ValueError, w).
Proof.
  intros Hfile _ Hline Htok Hint.
  assert (Hparse : parse_lines lines = Raise ValueError).
  { unfold parse_lines. apply map_result_raises.
    - intros l e. generalize (split l). intros toks.
      induction toks as [|tk toks IH]; simpl; [done|].
      destruct (int tk) as [v|e'] eqn:Htk.
      + destruct (map_result int toks); [done|]. intros [= <-]. by apply IH.
      + intros [= <-]. by eapply int_raises.
    - exists line. split; [done|]. apply map_result_raises.
      + apply int_raises.
      + by exists tok. }
  assert (Hload : load w = (Raise ValueError, w)).
  { unfold load, bind, readlines. rewrite Hfile.
    destruct lines as [|l0 lines]; [by apply elem_of_nil in Hline|].
    simpl getitem. unfold ret, lift. by rewrite Hparse. }
  split; [done|]. unfold main, bind. by rewrite Hload.
Qed.

Lemma bad_token_fails_in_load_witness :
  load (on_disk ["1 2"; "3 x"]) = (Raise ValueError, on_disk ["1 2"; "3 x"]) /\
  main (on_disk ["1 2"; "3 x"]) = (Raise ValueError, on_disk ["1 2"; "3 x"]).
Proof.
  apply (bad_token_fails_in_load (on_disk ["1 2"; "3 x"]) ["1 2"; "3 x"]
           "3 x" "x").
  - reflexivity.
  - reflexivity.
  - apply list_elem_of_further, list_elem_of_here.
  - apply list_elem_of_further, list_elem_of_here.
  - reflexivity.
Defined.

(** X12. Two runs of the script filter the table twice: on a file whose
    lines parse to a non-empty table of [int64] cells with rows of one
    length, and when no assignment fails in either run, the second run reads
    the table that the first one wrote and writes that table filtered once
    more. *)
Theorem script_twice w lines t :
  out_txt w = Some lines -> parse_lines lines = Ok t ->
  (0 < shape0 t)%nat -> rectangular (shape1 t) t ->
  Forall (Forall int64) t ->
  ~ overflows default_threshold t ->
  ~ overflows default_threshold (filtered default_threshold t) ->
  exists w1 w2,
    main w = (Ok tt, w1) /\ main w1 = (Ok tt, w2) /\
    out_txt w2
    = Some (saved_lines
              (filtered default_threshold (filtered default_threshold t))).
Proof.
  intros Hfile Hparse Hn Hrect _ Hno1 Hno2.
  pose proof (filtered_shape0 default_threshold t) as Hl.
  pose proof (filtered_rectangular default_threshold t _ Hrect) as Hrect'.
  assert (Hk : shape1 (filtered default_threshold t) = shape1 t).
  { apply rectangular_shape1; [by rewrite Hl|done]. }
  eexists _, _. split; [by eapply main_run|]. split.
  - eapply main_run.
    + reflexivity.
    + unfold parse_lines, saved_lines.
      apply (map_result_fmap
               (fun line => map_result int (split line))
               (fun r : list Z => String.concat " " (pretty <$> r))).
      apply parse_line_back.
    + by rewrite Hl.
    + by rewrite Hk.
    + done.
  - reflexivity.
Qed.

Lemma script_twice_witness :
  exists w1 w2,
    main (on_disk ["1 100"; "2 102"; "3 98"; "100 101"]) = (Ok tt, w1) /\
    main w1 = (Ok tt, w2) /\
    out_txt w2
    = Some (saved_lines
              (filtered default_threshold
                 (filtered default_threshold example_table))).
Proof.
  apply (script_twice (on_disk ["1 100"; "2 102"; "3 98"; "100 101"])
           ["1 100"; "2 102"; "3 98"; "100 101"] example_table).
  - reflexivity.
  - reflexivity.
  - unfold shape0. simpl. lia.
  - repeat constructor.
  - repeat constructor; vm_compute; congruence.
  - apply no_overflow_spec;
      [unfold shape0; simpl; lia|repeat constructor|vm_compute; reflexivity].
  - replace (filtered default_threshold example_table)
      with [[1; 100]; [2; 100]; [3; 100]; [26; 101]]
      by (vm_compute; reflexivity).
    apply no_overflow_spec;
      [unfold shape0; simpl; lia|repeat constructor|vm_compute; reflexivity].
Defined.

(** ** A threshold below zero *)

Lemma gtb_abs_negative x threshold :
  F64.gtb F64.zero threshold = true -> x <> S754_nan ->
  F64.gtb (F64.abs x) threshold = true.
Proof. by destruct x as [[]|[]| |[]], threshold as [[]|[]| |[]]. Qed.

(** X13. The z-scores are absolute values: with a threshold below zero
    every cell whose z-score is a number, and not a NaN, holds in the array
    that the call returns the converted mean of its column.  The call
    returns unless some mean to be assigned has no [int64] image, in which
    case it raises [OverflowError]. *)
Theorem negative_threshold_replaces w p t threshold i j r v :
  heap w !! p = Some (PyList t) -> valid_table t ->
  t !! i = Some r -> r !! j = Some v ->
  F64.gtb F64.zero threshold = true ->
  F64.div (F64.sub (F64.of_Z v) (column_mean (shape1 t) (column j t)))
          (column_std (shape1 t) (column j t)) <> S754_nan ->
  (forall out, returns w p threshold out ->
     exists x,
       F64.to_int64 (column_mean (shape1 t) (column j t)) = Ok x /\
       cell out i j = Some x) /\
  returns_unless_overflow w p threshold t.
Proof.
  intros Hp Hvalid Hr Hv Hthr Hz.
  destruct (valid_table_rectangular t Hvalid) as [Hn Hrect].
  split; [|by apply returns_unless_overflow_valid].
  intros out Hout.
  destruct (returned_filtered w p t threshold out Hp Hvalid Hout) as [-> Hno].
  pose proof (lookup_column_lt t i j r v Hrect Hr Hv) as Hj.
  assert (Hgt : F64.gtb (column_zscore (shape1 t) (column j t) v) threshold
                = true).
  { unfold column_zscore. by apply gtb_abs_negative. }
  destruct (replaced_storable threshold t i j _
              (column_mean (shape1 t) (column j t)) Hno
              (zscores_cell_column t i j r v Hrect Hr Hv) Hgt
              (mean_axis0_lookup t j Hrect Hj)) as [x Hx].
  exists x. split; [done|].
  rewrite (filtered_cell_column threshold t i j r v) by done.
  unfold clamp_cell. by rewrite Hgt, Hx.
Qed.

Lemma negative_threshold_replaces_witness :
  exists out,
    returns (initial example_table) 0 (F64.of_Z (-1)) out /\
    cell out 0 0 = Some 26.
Proof.
  destruct (negative_threshold_replaces (initial example_table) 0
              example_table (F64.of_Z (-1)) 0 0 [1; 100] 1)
    as [Hcell [Hret _]].
  - reflexivity.
  - valid_table_tac.
  - reflexivity.
  - reflexivity.
  - reflexivity.
  - vm_compute. discriminate.
  - destruct Hret as [out Hout].
    { apply no_overflow_spec;
        [unfold shape0; simpl; lia|repeat constructor|vm_compute; reflexivity]. }
    exists out. split; [exact Hout|].
    destruct (Hcell out Hout) as (x & Hx & Hc).
    vm_compute in Hx. injection Hx as <-. exact Hc.
Defined.
